(** * dataTOexcel: customer-order extraction from Bengali/English free text

    A shallow embedding of [app.py] (segmentation of the pasted text into
    customer blocks, field extraction, validation, invoice numbering) and the
    properties of it that the specification states.

    Python values are modelled as follows.
    - [str] is a list of Unicode code points ([N]); [len] is [length].
    - [None] versus a string is [option str].
    - A regular expression is a term of [Re.re], run by a backtracking matcher
      with the order of alternatives, the greediness and the leftmost-match
      rule of Python's [re] module.
    - The [for] loops are folds that pass the loop's variables as a state. *)

From Stdlib Require Import String Ascii List NArith PeanoNat Lia Bool Sorted.
Import ListNotations.

(** ** Unicode: code points, literals, character classes *)

Module Unicode.

Definition cp := N.
Definition str := list cp.

Fixpoint bytes_of (s : string) : list N :=
  match s with
  | EmptyString => []
  | String a r => N_of_ascii a :: bytes_of r
  end.

Local Open Scope N_scope.

Definition low6 (b : N) : N := N.land b 63.

(** String literals of this file are UTF-8; [utf8_decode] turns their bytes
    into the code points Python sees. *)
Fixpoint utf8_decode (fuel : nat) (bs : list N) : str :=
  match fuel with
  | O => []
  | S f =>
      match bs with
      | [] => []
      | b0 :: r0 =>
          if b0 <? 128 then b0 :: utf8_decode f r0
          else if b0 <? 224 then
            match r0 with
            | b1 :: r1 => (N.land b0 31 * 64 + low6 b1) :: utf8_decode f r1
            | _ => []
            end
          else if b0 <? 240 then
            match r0 with
            | b1 :: b2 :: r2 =>
                (N.land b0 15 * 4096 + low6 b1 * 64 + low6 b2) :: utf8_decode f r2
            | _ => []
            end
          else
            match r0 with
            | b1 :: b2 :: b3 :: r3 =>
                (N.land b0 7 * 262144 + low6 b1 * 4096 + low6 b2 * 64 + low6 b3)
                  :: utf8_decode f r3
            | _ => []
            end
      end
  end.

Definition u (s : string) : str :=
  let bs := bytes_of s in utf8_decode (List.length bs) bs.

Definition in_ranges (rs : list (N * N)) (c : cp) : bool :=
  existsb (fun r => (fst r <=? c) && (c <=? snd r)) rs.

(** [str.isspace] on one character, which is also the class [\s] of a
    [str] pattern (CPython's [_PyUnicode_IsWhitespace]). *)
Definition whitespace_ranges : list (N * N) :=
  [ (0x09, 0x0D); (0x1C, 0x20); (0x85, 0x85); (0xA0, 0xA0); (0x1680, 0x1680);
    (0x2000, 0x200A); (0x2028, 0x2029); (0x202F, 0x202F); (0x205F, 0x205F);
    (0x3000, 0x3000) ].

Definition isspace (c : cp) : bool := in_ranges whitespace_ranges c.

(** The class [\d] of a [str] pattern compiled without [re.ASCII]: any
    character of Unicode category Nd (table of Unicode 15). *)
Definition decimal_ranges : list (N * N) :=
  [ (0x30, 0x39);       (* ASCII *)
    (0x660, 0x669);     (* Arabic-Indic *)
    (0x6F0, 0x6F9);     (* Extended Arabic-Indic *)
    (0x7C0, 0x7C9);     (* NKo *)
    (0x966, 0x96F);     (* Devanagari *)
    (0x9E6, 0x9EF);     (* Bengali *)
    (0xA66, 0xA6F);     (* Gurmukhi *)
    (0xAE6, 0xAEF);     (* Gujarati *)
    (0xB66, 0xB6F);     (* Oriya *)
    (0xBE6, 0xBEF);     (* Tamil *)
    (0xC66, 0xC6F);     (* Telugu *)
    (0xCE6, 0xCEF);     (* Kannada *)
    (0xD66, 0xD6F);     (* Malayalam *)
    (0xDE6, 0xDEF);     (* Sinhala Lith *)
    (0xE50, 0xE59);     (* Thai *)
    (0xED0, 0xED9);     (* Lao *)
    (0xF20, 0xF29);     (* Tibetan *)
    (0x1040, 0x1049);   (* Myanmar *)
    (0x1090, 0x1099);   (* Myanmar Shan *)
    (0x17E0, 0x17E9);   (* Khmer *)
    (0x1810, 0x1819);   (* Mongolian *)
    (0x1946, 0x194F);   (* Limbu *)
    (0x19D0, 0x19D9);   (* New Tai Lue *)
    (0x1A80, 0x1A89);   (* Tai Tham Hora *)
    (0x1A90, 0x1A99);   (* Tai Tham Tham *)
    (0x1B50, 0x1B59);   (* Balinese *)
    (0x1BB0, 0x1BB9);   (* Sundanese *)
    (0x1C40, 0x1C49);   (* Lepcha *)
    (0x1C50, 0x1C59);   (* Ol Chiki *)
    (0xA620, 0xA629);   (* Vai *)
    (0xA8D0, 0xA8D9);   (* Saurashtra *)
    (0xA900, 0xA909);   (* Kayah Li *)
    (0xA9D0, 0xA9D9);   (* Javanese *)
    (0xA9F0, 0xA9F9);   (* Myanmar Tai Laing *)
    (0xAA50, 0xAA59);   (* Cham *)
    (0xABF0, 0xABF9);   (* Meetei Mayek *)
    (0xFF10, 0xFF19);   (* Fullwidth *)
    (0x104A0, 0x104A9); (* Osmanya *)
    (0x10D30, 0x10D39); (* Hanifi Rohingya *)
    (0x11066, 0x1106F); (* Brahmi *)
    (0x110F0, 0x110F9); (* Sora Sompeng *)
    (0x11136, 0x1113F); (* Chakma *)
    (0x111D0, 0x111D9); (* Sharada *)
    (0x112F0, 0x112F9); (* Khudawadi *)
    (0x11450, 0x11459); (* Newa *)
    (0x114D0, 0x114D9); (* Tirhuta *)
    (0x11650, 0x11659); (* Modi *)
    (0x116C0, 0x116C9); (* Takri *)
    (0x11730, 0x11739); (* Ahom *)
    (0x118E0, 0x118E9); (* Warang Citi *)
    (0x11950, 0x11959); (* Dives Akuru *)
    (0x11C50, 0x11C59); (* Bhaiksuki *)
    (0x11D50, 0x11D59); (* Masaram Gondi *)
    (0x11DA0, 0x11DA9); (* Gunjala Gondi *)
    (0x11F50, 0x11F59); (* Kawi *)
    (0x16A60, 0x16A69); (* Mro *)
    (0x16AC0, 0x16AC9); (* Tangsa *)
    (0x16B50, 0x16B59); (* Pahawh Hmong *)
    (0x1D7CE, 0x1D7FF); (* Mathematical digits *)
    (0x1E140, 0x1E149); (* Nyiakeng Puachue Hmong *)
    (0x1E2F0, 0x1E2F9); (* Wancho *)
    (0x1E4F0, 0x1E4F9); (* Nag Mundari *)
    (0x1E950, 0x1E959); (* Adlam *)
    (0x1FBF0, 0x1FBF9)  (* Segmented digits *) ].

Definition isdecimal (c : cp) : bool := in_ranges decimal_ranges c.

Definition is_ascii_digit (c : cp) : bool := (0x30 <=? c) && (c <=? 0x39).
Definition is_bengali_digit (c : cp) : bool := (0x9E6 <=? c) && (c <=? 0x9EF).

(** Case folding as [re.IGNORECASE] needs it for the letters that occur in
    this program's patterns (n, a, m, e and caseless Bengali letters): only
    the ASCII capital of such a letter lowers to it. *)
Definition lower (c : cp) : cp :=
  if (0x41 <=? c) && (c <=? 0x5A) then c + 32 else c.

End Unicode.
Export Unicode.

(** ** The operations of Python's [str] that the program uses *)

Module PyStr.

(** Truthiness of a string or of a list: [if s:] *)
Definition truthy {A : Type} (s : list A) : bool :=
  match s with [] => false | _ :: _ => true end.

Fixpoint lstrip (s : str) : str :=
  match s with
  | c :: r => if isspace c then lstrip r else s
  | [] => []
  end.

Definition rstrip (s : str) : str := rev (lstrip (rev s)).

(** [s.strip()] *)
Definition strip (s : str) : str := rstrip (lstrip s).

(** [s.split(sep)] for a one-character separator *)
Fixpoint split (sep : cp) (s : str) : list str :=
  match s with
  | [] => [[]]
  | c :: r =>
      if N.eqb c sep then [] :: split sep r
      else match split sep r with
           | x :: xs => (c :: x) :: xs
           | [] => [[c]]
           end
  end.

(** [sep.join(parts)] *)
Fixpoint join (sep : str) (parts : list str) : str :=
  match parts with
  | [] => []
  | [x] => x
  | x :: rest => x ++ sep ++ join sep rest
  end.

Fixpoint startswith (s p : str) {struct p} : bool :=
  match p, s with
  | [], _ => true
  | a :: p', b :: s' => N.eqb a b && startswith s' p'
  | _ :: _, [] => false
  end.

(** [kw in s] *)
Fixpoint contains (kw s : str) : bool :=
  startswith s kw || match s with
                     | [] => false
                     | _ :: r => contains kw r
                     end.

(** [any(kw in line for kw in kws)] *)
Definition any_in (kws : list str) (line : str) : bool :=
  existsb (fun kw => contains kw line) kws.

(** [str.maketrans(x, y)] for two strings of equal length, and
    [s.translate(table)] *)
Definition maketrans (x y : str) : list (cp * cp) := combine x y.

Fixpoint lookup (table : list (cp * cp)) (c : cp) : option cp :=
  match table with
  | [] => None
  | (k, v) :: rest => if N.eqb k c then Some v else lookup rest c
  end.

Definition translate_char (table : list (cp * cp)) (c : cp) : cp :=
  match lookup table c with Some d => d | None => c end.

Definition translate (table : list (cp * cp)) (s : str) : str :=
  map (translate_char table) s.

Definition nl : cp := 10%N.
Definition cr : cp := 13%N.

End PyStr.
Export PyStr.

(** ** Python's [re]: patterns and a backtracking matcher *)

Module Re.

Inductive re : Type :=
| Eps                      (* the empty pattern *)
| Bol                      (* ^ (without re.MULTILINE) *)
| Chr (p : cp -> bool)     (* one character of a class *)
| Cat (a b : re)           (* a b *)
| Alt (a b : re)           (* a|b, a tried first *)
| Star (a : re)            (* a*, greedy *)
| Group (a : re).          (* (a); every pattern here has one group at most *)

Declare Scope re_scope.
Delimit Scope re_scope with re.
Bind Scope re_scope with re.
Infix ">>" := Cat (at level 41, right associativity) : re_scope.
Infix "<|>" := Alt (at level 51, right associativity) : re_scope.

Definition Lit1 (c : cp) : re := Chr (N.eqb c).
Definition LitI1 (c : cp) : re := Chr (fun x => N.eqb (lower x) (lower c)).
(** A literal string, and the same under [re.IGNORECASE] *)
Definition Lit (s : str) : re := fold_right (fun c r => Cat (Lit1 c) r) Eps s.
Definition LitI (s : str) : re := fold_right (fun c r => Cat (LitI1 c) r) Eps s.
(** a+, a? and a{n} *)
Definition Plus (a : re) : re := Cat a (Star a).
Definition Opt (a : re) : re := Alt a Eps.
Fixpoint Rep (n : nat) (a : re) : re :=
  match n with
  | O => Eps
  | S n' => Cat a (Rep n' a)
  end.
(** \d and \s *)
Definition digit : re := Chr isdecimal.
Definition space : re := Chr isspace.

Section Matcher.
Context {A : Type}.

(** A continuation receives: whether the position is still the start of
    the string, the rest of the input, and the text of group 1. *)
Definition cont : Type := bool -> str -> option str -> option A.

(** The greedy loop of [a*]: one more round of [body] when it consumes
    input and the rest then matches, else the continuation. *)
Fixpoint star_loop (body : bool -> str -> option str -> cont -> option A)
  (k : cont) (fuel : nat) (bol : bool) (s : str) (g : option str)
  {struct fuel} : option A :=
  match fuel with
  | O => k bol s g
  | S f =>
      match body bol s g
                 (fun bol' s' g' =>
                    if length s' <? length s then star_loop body k f bol' s' g'
                    else None) with
      | Some x => Some x
      | None => k bol s g
      end
  end.

(** [bt r bol s g k] matches [r] at the head of [s] and hands what is left
    to [k]; when [k] fails the matcher backtracks into [r]. *)
Fixpoint bt (r : re) (bol : bool) (s : str) (g : option str) (k : cont)
  {struct r} : option A :=
  match r with
  | Eps => k bol s g
  | Bol => if bol then k bol s g else None
  | Chr p =>
      match s with
      | c :: s' => if p c then k false s' g else None
      | [] => None
      end
  | Cat a b => bt a bol s g (fun bol' s' g' => bt b bol' s' g' k)
  | Alt a b =>
      match bt a bol s g k with
      | Some x => Some x
      | None => bt b bol s g k
      end
  | Star a => star_loop (bt a) k (length s) bol s g
  | Group a =>
      bt a bol s g
         (fun bol' s' _ => k bol' s' (Some (firstn (length s - length s') s)))
  end.
End Matcher.

(** A match object: the text before the match, the match, the text after
    it, and [group(1)] ([None] when the group took no part). *)
Record Match : Type :=
  { m_pre : str; m_text : str; m_post : str; m_group1 : option str }.

Definition match_here (r : re) (bol : bool) (s : str) : option (str * option str) :=
  bt r bol s None (fun _ s' g => Some (s', g)).

(** The leftmost match at or after the current position. *)
Fixpoint search_from (r : re) (bol : bool) (pre : str) (s : str) : option Match :=
  match match_here r bol s with
  | Some (s', g) =>
      Some {| m_pre := rev pre;
              m_text := firstn (length s - length s') s;
              m_post := s';
              m_group1 := g |}
  | None =>
      match s with
      | [] => None
      | c :: s' => search_from r false (c :: pre) s'
      end
  end.

(** [re.search(r, s)] *)
Definition search (r : re) (s : str) : option Match := search_from r true [] s.

(** [re.match(r, s)], as a truth value *)
Definition matches (r : re) (s : str) : bool :=
  match match_here r true s with Some _ => true | None => false end.

(** [re.sub(r, repl, s)] for a replacement without group references. After
    an empty match one character is copied, as CPython does. *)
Fixpoint sub_from (fuel : nat) (r : re) (repl : str) (bol : bool) (s : str) : str :=
  match fuel with
  | O => s
  | S f =>
      match search_from r bol [] s with
      | None => s
      | Some m =>
          m_pre m ++ repl ++
            match m_text m, m_post m with
            | [], [] => []
            | [], c :: rest => c :: sub_from f r repl false rest
            | _ :: _, post => sub_from f r repl false post
            end
      end
  end.

Definition sub (r : re) (repl : str) (s : str) : str :=
  sub_from (S (length s)) r repl true s.

(** [re.split(r, s)] for a pattern without groups that matches no empty
    string (the one pattern the program splits on starts with a newline). *)
Fixpoint split_from (fuel : nat) (r : re) (bol : bool) (s : str) : list str :=
  match fuel with
  | O => [s]
  | S f =>
      match search_from r bol [] s with
      | None => [s]
      | Some m =>
          match m_text m with
          | [] => [s]
          | _ :: _ => m_pre m :: split_from f r false (m_post m)
          end
      end
  end.

Definition split (r : re) (s : str) : list str :=
  split_from (S (length s)) r true s.

End Re.
Import Re.
Local Open Scope re_scope.

(** ** The program *)

(** *** [bengali_to_english_digits] *)

Definition bengali_digits : str := u "০১২৩৪৫৬৭৮৯".
Definition english_digits : str := u "0123456789".

Definition bengali_to_english_digits (text : str) : str :=
  let translation_table := maketrans bengali_digits english_digits in
  translate translation_table text.

(** *** [extract_phone_number] *)

Definition phone_patterns : list re :=
  [ Group (Rep 11 digit);                    (* (\d{11}) *)
    Lit (u "+88") >> Group (Rep 11 digit) ]. (* \+88(\d{11}) *)

(** [for pattern in patterns: match = re.search(pattern, s); if match: return
    match.group(1)], then [return None] *)
Fixpoint first_group1 (patterns : list re) (s : str) : option str :=
  match patterns with
  | [] => None
  | pattern :: rest =>
      match search pattern s with
      | Some m => m_group1 m
      | None => first_group1 rest s
      end
  end.

Definition extract_phone_number (line : str) : option str :=
  let english_line := bengali_to_english_digits line in
  first_group1 phone_patterns english_line.

(** *** [extract_amount] *)

(** [(\d+)\s*টাকা|Taka]: the alternation binds weaker than the sequence, so
    the second alternative is the bare word. *)
Definition amount_pattern : re :=
  (Group (Plus digit) >> Star space >> Lit (u "টাকা")) <|> Lit (u "Taka").

Definition extract_amount (note_text : str) : option str :=
  let text := bengali_to_english_digits note_text in
  match search amount_pattern text with
  | Some m => m_group1 m
  | None =>
      match search (Group (Plus digit)) text with
      | Some number_match => m_group1 number_match
      | None => None
      end
  end.

(** *** [extract_customer_blocks] *)

(** [\n\s*\n\s*\n+] and [\n\s*\n] *)
Definition blank_lines_pattern : re :=
  Lit1 nl >> Star space >> Lit1 nl >> Star space >> Plus (Lit1 nl).
Definition separator_pattern : re :=
  Lit1 nl >> Star space >> Lit1 nl.

(** [^(নাম|name|nam|আপনার নাম)] with [re.IGNORECASE] *)
Definition name_start_pattern : re :=
  Bol >> Group (LitI (u "নাম") <|> LitI (u "name") <|> LitI (u "nam")
                <|> LitI (u "আপনার নাম")).

(** [[line.strip() for line in block.split('\n') if line.strip()]] *)
Definition clean_lines (block : str) : list str :=
  map strip (filter (fun line => truthy (strip line)) (PyStr.split nl block)).

Definition starts_with_name (lines : list str) : bool :=
  existsb (fun line => matches name_start_pattern line) (firstn 2 lines).

(** The first three statements: line endings, runs of blank lines. *)
Definition normalize_text (input_text : str) : str :=
  let normalized_text := sub (Lit [cr; nl]) [nl] input_text in
  let normalized_text := sub (Lit1 cr) [nl] normalized_text in
  sub blank_lines_pattern [nl; nl] normalized_text.

(** [blocks = re.split(r'\n\s*\n', normalized_text.strip())] *)
Definition split_blocks (input_text : str) : list str :=
  Re.split separator_pattern (strip (normalize_text input_text)).

(** The loop's variables: [customer_blocks] and [current_block]. *)
Definition seg_state : Type := (list str * list str)%type.

Definition seg_step (st : seg_state) (block : str) : seg_state :=
  let '(customer_blocks, current_block) := st in
  let lines := clean_lines block in
  if negb (truthy lines) then st                               (* continue *)
  else if starts_with_name lines && truthy current_block
  then (customer_blocks ++ [join [nl] current_block], lines)
  else if truthy current_block
  then (customer_blocks, current_block ++ lines)               (* extend *)
  else (customer_blocks, lines).

Definition extract_customer_blocks (input_text : str) : list str :=
  let blocks := split_blocks input_text in
  let '(customer_blocks, current_block) := fold_left seg_step blocks ([], []) in
  let customer_blocks :=
    if truthy current_block
    then customer_blocks ++ [join [nl] current_block]
    else customer_blocks in
  if negb (truthy customer_blocks) && truthy (strip input_text)
  then [strip input_text]
  else customer_blocks.

(** *** [process_customer_block] *)

Definition name_keywords : list str := [u "নাম"; u "name"; u "nam"].
Definition address_keywords : list str :=
  [u "জেলা"; u "থানা"; u "এলাকা"; u "ঠিকানা"; u "এলাকার নাম"; u "address"; u "area"].
Definition order_keywords : list str := [u "অর্ডার"; u "অডার"; u "order"].

(** [^(নাম|আপনার নাম|name|nam)\s*[:：]?\s*] with [re.IGNORECASE] *)
Definition name_prefix_pattern : re :=
  Bol >> Group (LitI (u "নাম") <|> LitI (u "আপনার নাম") <|> LitI (u "name")
                <|> LitI (u "nam"))
      >> Star space
      >> Opt (Chr (fun c => N.eqb c 0x3A || N.eqb c 0xFF1A))
      >> Star space.

(** The condition of the order-note statement:
    ['অর্ডার' in line or 'order' in line or 'অডার' in line] *)
Definition has_order_marker (line : str) : bool :=
  contains (u "অর্ডার") line || contains (u "order") line || contains (u "অডার") line.

(** The condition of the address statement. *)
Definition is_address_line (line : str) : bool :=
  any_in address_keywords line && negb (any_in order_keywords line).

(** The record the function returns; ['Amount'] is the one entry that can
    hold [None]. *)
Record Customer : Type :=
  { Name : str;
    Address : str;
    Phone : str;
    Amount : option str;
    Note : str;
    Delivery_Type : str }.

(** The variables of the loop over the lines. *)
Record fields : Type :=
  { name : str;
    phone : str;
    address_lines : list str;
    note : str;
    amount : option str }.

Definition init_fields : fields :=
  {| name := []; phone := []; address_lines := []; note := []; amount := Some [] |}.

(** The inner loop: the first [lines[j]], [j > i], with [lines[j].strip()]
    not empty. *)
Definition next_nonempty (later : list str) : option str :=
  find (fun l => truthy (strip l)) later.

(** One pass of the loop body, for line [i]; [later] is [lines[i+1:]]. *)
Definition line_step (i : nat) (raw : str) (later : list str) (st : fields) : fields :=
  let line := strip raw in
  if negb (truthy line) then st                                (* continue *)
  else
    let st :=
      if negb (truthy (name st)) && (Nat.eqb i 0 || any_in name_keywords line)
      then {| name := strip (sub name_prefix_pattern [] line);
              phone := phone st; address_lines := address_lines st;
              note := note st; amount := amount st |}
      else st in
    let st :=
      if negb (truthy (phone st))
      then match extract_phone_number line with
           | Some extracted_phone =>
               if truthy extracted_phone
               then {| name := name st; phone := extracted_phone;
                       address_lines := address_lines st;
                       note := note st; amount := amount st |}
               else st
           | None => st
           end
      else st in
    let st :=
      if is_address_line line
      then {| name := name st; phone := phone st;
              address_lines := address_lines st ++ [line];
              note := note st; amount := amount st |}
      else st in
    if has_order_marker line
    then match next_nonempty later with
         | Some l =>
             {| name := name st; phone := phone st;
                address_lines := address_lines st;
                note := strip l; amount := extract_amount (strip l) |}
         | None => st
         end
    else st.

(** [for i, line in enumerate(lines)] *)
Fixpoint scan_lines (i : nat) (lines : list str) (st : fields) : fields :=
  match lines with
  | [] => st
  | raw :: later => scan_lines (S i) later (line_step i raw later st)
  end.

Definition process_customer_block (block_text : str) : Customer :=
  let lines := PyStr.split nl (strip block_text) in
  let st := scan_lines 0 lines init_fields in
  {| Name := name st;
     Address := join [nl] (address_lines st);
     Phone := phone st;
     Amount := amount st;
     Note := note st;
     Delivery_Type := u "Home" |}.

(** *** [validate_data] *)

Inductive field : Type := F_Name | F_Phone | F_Address | F_Amount.

(** [not data['Amount']]: true of [None] and of the empty string. *)
Definition falsy_opt (a : option str) : bool :=
  match a with
  | None => true
  | Some s => negb (truthy s)
  end.

Definition validate_data (data : Customer) : list field :=
  let missing_fields := [] in
  let missing_fields :=
    if negb (truthy (Name data)) then missing_fields ++ [F_Name] else missing_fields in
  let missing_fields :=
    if negb (truthy (Phone data)) || negb (Nat.eqb (length (Phone data)) 11)
    then missing_fields ++ [F_Phone] else missing_fields in
  let missing_fields :=
    if negb (truthy (Address data)) then missing_fields ++ [F_Address] else missing_fields in
  let missing_fields :=
    if falsy_opt (Amount data) then missing_fields ++ [F_Amount] else missing_fields in
  missing_fields.

(** *** [main], without the widgets and the spreadsheet writer *)

(** The loop's variables: [all_data] and [invalid_entries]. *)
Definition run_state : Type := (list Customer * list (nat * Customer * list field))%type.

Definition run_step (st : run_state) (entry : nat * str) : run_state :=
  let '(all_data, invalid_entries) := st in
  let '(i, block) := entry in
  let data := process_customer_block block in
  let missing_fields := validate_data data in
  if truthy missing_fields
  then (all_data, invalid_entries ++ [(i, data, missing_fields)])
  else (all_data ++ [data], invalid_entries).

(** [enumerate(xs, 1)] *)
Definition enumerate1 {A : Type} (xs : list A) : list (nat * A) :=
  combine (seq 1 (length xs)) xs.

(** What a run ends with: one of the two error messages, or the data frame
    with its [Invoice] column, [range(1, len(df) + 1)], in front. *)
Inductive outcome : Type :=
| No_input_provided
| No_valid_data (invalid_entries : list (nat * Customer * list field))
| Data_frame (rows : list (nat * Customer))
             (invalid_entries : list (nat * Customer * list field)).

Definition main (user_input : str) : outcome :=
  if negb (truthy (strip user_input)) then No_input_provided
  else
    let customer_blocks := extract_customer_blocks user_input in
    let '(all_data, invalid_entries) :=
      fold_left run_step (enumerate1 customer_blocks) ([], []) in
    if negb (truthy all_data) then No_valid_data invalid_entries
    else Data_frame (combine (seq 1 (length all_data)) all_data) invalid_entries.

(** ** Specification-side definitions *)

(** The ASCII digit that a Bengali digit stands for; any other character is
    itself. Defined from the code points, not from the program's table. *)
Definition ascii_equivalent (c : cp) : cp :=
  if is_bengali_digit c then (c - 0x9E6 + 0x30)%N else c.

(** The lines of a block as [process_customer_block] walks them. *)
Definition block_lines (block_text : str) : list str :=
  PyStr.split nl (strip block_text).

(** The order notes of a block in scan order: for every line with an order
    marker that has a non-empty line after it, that next line, stripped. *)
Fixpoint note_candidates (lines : list str) : list str :=
  match lines with
  | [] => []
  | raw :: later =>
      (if truthy (strip raw) && has_order_marker (strip raw)
       then match next_nonempty later with
            | Some l => [strip l]
            | None => []
            end
       else [])
        ++ note_candidates later
  end.

(** The specification's reading of the order note: the non-empty line after
    the first line with an order marker. *)
Fixpoint first_order_note (lines : list str) : option str :=
  match lines with
  | [] => None
  | raw :: later =>
      if has_order_marker (strip raw)
      then option_map strip (next_nonempty later)
      else first_order_note later
  end.

(** The specification's reading of the address rule: keywords matched
    without regard to case. *)
Definition contains_ci (kw line : str) : bool :=
  contains (map lower kw) (map lower line).

Definition is_address_line_ci (line : str) : bool :=
  existsb (fun kw => contains_ci kw line) address_keywords
  && negb (existsb (fun kw => contains_ci kw line) order_keywords).

(** The specification's defect rule for one field. *)
Definition field_empty (data : Customer) (f : field) : bool :=
  match f with
  | F_Name => negb (truthy (Name data))
  | F_Phone => negb (truthy (Phone data))
  | F_Address => negb (truthy (Address data))
  | F_Amount => match Amount data with
                | None => true
                | Some a => negb (truthy a)
                end
  end.

Definition is_defect (data : Customer) (f : field) : bool :=
  field_empty data f
  || match f with
     | F_Phone => negb (length (Phone data) =? 11)
     | _ => false
     end.

(** The segments of an input: the cleaned lines of every part that
    [split_blocks] cuts off, the parts without lines left out (the loop skips
    them). *)
Definition segments (input_text : str) : list (list str) :=
  filter truthy (map clean_lines (split_blocks input_text)).

(** The specification's re-merge rule: the first segment opens a block; each
    later segment opens a block of its own when it is name-marked, and is
    appended to the block before it when it is not. *)
Definition opens_block (segs : list (list str)) : bool :=
  match segs with
  | next :: _ => starts_with_name next
  | [] => false
  end.

Fixpoint regroup (segs : list (list str)) : list (list str) :=
  match segs with
  | [] => []
  | seg :: rest =>
      match regroup rest with
      | g :: gs => if opens_block rest then seg :: g :: gs else (seg ++ g) :: gs
      | [] => [seg]
      end
  end.

(** A record is exported when the validator finds nothing missing. *)
Definition is_valid (data : Customer) : bool := negb (truthy (validate_data data)).

(** The words a pattern denotes, for stating what a match can be. *)
Inductive Lang : re -> str -> Prop :=
| L_Eps : Lang Eps []
| L_Bol : Lang Bol []
| L_Chr p c : p c = true -> Lang (Chr p) [c]
| L_Cat a b w1 w2 : Lang a w1 -> Lang b w2 -> Lang (Cat a b) (w1 ++ w2)
| L_Alt_l a b w : Lang a w -> Lang (Alt a b) w
| L_Alt_r a b w : Lang b w -> Lang (Alt a b) w
| L_Star_nil a : Lang (Star a) []
| L_Star_more a w1 w2 : Lang a w1 -> Lang (Star a) w2 -> Lang (Star a) (w1 ++ w2)
| L_Group a w : Lang a w -> Lang (Group a) w.

Fixpoint has_group (r : re) : bool :=
  match r with
  | Eps | Bol | Chr _ => false
  | Cat a b | Alt a b => has_group a || has_group b
  | Star a => has_group a
  | Group _ => true
  end.

(** ** Views of the loops, one variable at a time *)

(** The shape of an extracted number. *)
Definition phone_shape (p : str) : Prop :=
  length p = 11 /\ forallb isdecimal p = true
  /\ forallb (fun c => negb (is_bengali_digit c)) p = true.

(** The phone variable through one pass of the loop body, and through the
    loop: the first line with a number sets it, and it then stays. *)
Definition phone_step (ph : str) (raw : str) : str :=
  if truthy ph then ph
  else match extract_phone_number (strip raw) with
       | Some p => p
       | None => []
       end.

(** What line [raw] contributes: the order note it announces, if any. *)
Definition note_of_line (raw : str) (later : list str) : option str :=
  if truthy (strip raw) && has_order_marker (strip raw)
  then option_map strip (next_nonempty later)
  else None.

(** The loop body on the cleaned lines of a part that has lines. *)
Definition lines_step (st : seg_state) (lines : list str) : seg_state :=
  let '(customer_blocks, current_block) := st in
  if starts_with_name lines && truthy current_block
  then (customer_blocks ++ [join [nl] current_block], lines)
  else if truthy current_block
  then (customer_blocks, current_block ++ lines)
  else (customer_blocks, lines).

(** What a successful run of the matcher went through. *)
Definition run_ok {A : Type} (r : re) (s : str) (g : option str)
  (k : @cont A) (x : A) : Prop :=
  exists w s' bol' g',
    s = w ++ s' /\ Lang r w /\ k bol' s' g' = Some x
    /\ (has_group r = false -> g' = g).

(** ** Further views, for the properties of the whole pipeline *)

(** The characters of a text that are not whitespace, in order. *)
Definition ink (s : str) : str := filter (fun c => negb (isspace c)) s.

(** A text that neither begins nor ends with whitespace. *)
Definition trimmed (s : str) : Prop :=
  match s with c :: _ => isspace c = false | [] => True end
  /\ match rev s with c :: _ => isspace c = false | [] => True end.

(** A line as the segmenter leaves it: not empty, trimmed, without a
    newline. *)
Definition clean_line (l : str) : Prop := l <> [] /\ trimmed l /\ ~ In nl l.

(** The characters a pattern can consume all satisfy [P]. *)
Fixpoint re_chars (P : cp -> Prop) (r : re) : Prop :=
  match r with
  | Eps | Bol => True
  | Chr p => forall c, p c = true -> P c
  | Cat a b | Alt a b => re_chars P a /\ re_chars P b
  | Star a | Group a => re_chars P a
  end.

(** The entries a run reports as skipped ([invalid_entries]). *)
Definition reported (o : outcome) : list (nat * Customer * list field) :=
  match o with
  | No_input_provided => []
  | No_valid_data invalid_entries => invalid_entries
  | Data_frame _ invalid_entries => invalid_entries
  end.

(** A prefix test that is blind to case, as a literal matches under
    [re.IGNORECASE]. *)
Fixpoint startswith_ci (s p : str) {struct p} : bool :=
  match p, s with
  | [], _ => true
  | a :: p', b :: s' => N.eqb (lower b) (lower a) && startswith_ci s' p'
  | _ :: _, [] => false
  end.

(** The markers of the name-prefix pattern, in the order of its
    alternatives. *)
Definition name_markers : list str := [u "নাম"; u "আপনার নাম"; u "name"; u "nam"].

(** One colon, ASCII or full-width, taken off the front. *)
Definition drop_colon (s : str) : str :=
  match s with
  | c :: r => if N.eqb c 0x3A || N.eqb c 0xFF1A then r else s
  | [] => []
  end.

(** What the substitution of the name-prefix pattern comes to: a line that
    begins with a marker loses the marker, the whitespace after it, one
    colon, and the whitespace after that; any other line is kept. *)
Definition strip_name_marker (line : str) : str :=
  match find (startswith_ci line) name_markers with
  | Some marker => lstrip (drop_colon (lstrip (skipn (length marker) line)))
  | None => line
  end.

(** The name variable through one pass of the loop body, and through the
    loop. *)
Definition name_step (i : nat) (nm : str) (raw : str) : str :=
  let line := strip raw in
  if truthy line && negb (truthy nm) && (Nat.eqb i 0 || any_in name_keywords line)
  then strip (sub name_prefix_pattern [] line)
  else nm.

Fixpoint name_scan (i : nat) (lines : list str) (nm : str) : str :=
  match lines with
  | [] => nm
  | raw :: later => name_scan (S i) later (name_step i nm raw)
  end.

(** The names a block offers, in scan order: for every non-empty line that
    is the first of the block or holds a name keyword, what is left of it once
    the marker is taken off (which may be nothing). *)
Fixpoint name_candidates (i : nat) (lines : list str) : list str :=
  match lines with
  | [] => []
  | raw :: later =>
      (if truthy (strip raw) && (Nat.eqb i 0 || any_in name_keywords (strip raw))
       then [strip (sub name_prefix_pattern [] (strip raw))]
       else [])
        ++ name_candidates (S i) later
  end.

(** The phone numbers a block offers, in scan order: one for every line in
    which [extract_phone_number] finds one. *)
Definition phone_candidates (lines : list str) : list str :=
  flat_map (fun raw => match extract_phone_number (strip raw) with
                       | Some p => [p]
                       | None => []
                       end) lines.

(** The record of a block in which nothing was found. *)
Definition empty_record : Customer :=
  {| Name := []; Address := []; Phone := []; Amount := Some []; Note := [];
     Delivery_Type := u "Home" |}.

(** * Properties *)

(** ** Digit normalisation *)

Lemma translation_table_eq :
  maketrans bengali_digits english_digits =
  [ (0x9E6, 0x30); (0x9E7, 0x31); (0x9E8, 0x32); (0x9E9, 0x33); (0x9EA, 0x34);
    (0x9EB, 0x35); (0x9EC, 0x36); (0x9ED, 0x37); (0x9EE, 0x38); (0x9EF, 0x39) ]%N.
Proof. vm_compute. reflexivity. Qed.

(** The literals of the program, as code points. *)
Example literal_name_markers :
  name_keywords = [[0x9A8; 0x9BE; 0x9AE]; [0x6E; 0x61; 0x6D; 0x65]; [0x6E; 0x61; 0x6D]]%N.
Proof. vm_compute. reflexivity. Qed.

Example literal_order_markers :
  order_keywords = [[0x985; 0x9B0; 0x9CD; 0x9A1; 0x9BE; 0x9B0]; [0x985; 0x9A1; 0x9BE; 0x9B0];
                    [0x6F; 0x72; 0x64; 0x65; 0x72]]%N.
Proof. vm_compute. reflexivity. Qed.

Example literal_taka : u "টাকা" = [0x99F; 0x9BE; 0x995; 0x9BE]%N.
Proof. vm_compute. reflexivity. Qed.

Lemma translate_char_ascii_equivalent (c : cp) :
  translate_char (maketrans bengali_digits english_digits) c = ascii_equivalent c.
Proof.
  rewrite translation_table_eq.
  unfold translate_char, ascii_equivalent, is_bengali_digit.
  cbn [lookup].
  repeat match goal with
         | |- context [N.eqb ?k c] =>
             destruct (N.eqb_spec k c) as [<-|?]; [reflexivity|]
         end.
  destruct (N.leb_spec 0x9E6 c); destruct (N.leb_spec c 0x9EF);
    cbn [andb]; try reflexivity.
  lia.
Qed.

(** [str.translate] works character by character. *)
Lemma bengali_to_english_digits_map (s : str) :
  bengali_to_english_digits s = map ascii_equivalent s.
Proof.
  unfold bengali_to_english_digits, translate.
  apply map_ext. intro c. apply translate_char_ascii_equivalent.
Qed.

Lemma ascii_equivalent_not_bengali (c : cp) :
  is_bengali_digit (ascii_equivalent c) = false.
Proof.
  unfold ascii_equivalent. destruct (is_bengali_digit c) eqn:E; [|exact E].
  unfold is_bengali_digit in *.
  apply andb_true_iff in E. destruct E as [E1 E2].
  apply N.leb_le in E1. apply N.leb_le in E2.
  apply andb_false_iff. left. apply N.leb_gt. lia.
Qed.

Lemma ascii_equivalent_of_bengali (c : cp) :
  is_bengali_digit c = true ->
  is_ascii_digit (ascii_equivalent c) = true /\
  (ascii_equivalent c - 0x30 = c - 0x9E6)%N.
Proof.
  intro E. unfold ascii_equivalent. rewrite E.
  unfold is_bengali_digit, is_ascii_digit in *.
  apply andb_true_iff in E. destruct E as [E1 E2].
  apply N.leb_le in E1. apply N.leb_le in E2.
  split; [|lia].
  apply andb_true_iff. split; apply N.leb_le; lia.
Qed.

Lemma ascii_equivalent_idempotent (c : cp) :
  ascii_equivalent (ascii_equivalent c) = ascii_equivalent c.
Proof.
  unfold ascii_equivalent at 1.
  now rewrite ascii_equivalent_not_bengali.
Qed.

Lemma normalized_has_no_bengali_digit (s : str) :
  forallb (fun c => negb (is_bengali_digit c)) (bengali_to_english_digits s) = true.
Proof.
  rewrite bengali_to_english_digits_map, forallb_forall.
  intros c Hc. apply in_map_iff in Hc. destruct Hc as [c0 [<- _]].
  now rewrite ascii_equivalent_not_bengali.
Qed.

(** C8. [bengali_to_english_digits] replaces every Bengali digit by its ASCII
    digit in place: the output is the input mapped character by character
    through [ascii_equivalent] (so it has the length of the input, and at
    every position a Bengali digit has become its ASCII equivalent and any
    other character is unchanged), it holds no Bengali digit, and applying
    the function twice is applying it once. *)
Theorem bengali_to_english_digits_spec (s : str) :
  bengali_to_english_digits s = map ascii_equivalent s
  /\ length (bengali_to_english_digits s) = length s
  /\ (forall i, nth_error (bengali_to_english_digits s) i
                = option_map ascii_equivalent (nth_error s i))
  /\ forallb (fun c => negb (is_bengali_digit c)) (bengali_to_english_digits s) = true
  /\ bengali_to_english_digits (bengali_to_english_digits s)
     = bengali_to_english_digits s.
Proof.
  repeat split.
  - apply bengali_to_english_digits_map.
  - rewrite bengali_to_english_digits_map. apply length_map.
  - intro i. rewrite bengali_to_english_digits_map. apply nth_error_map.
  - apply normalized_has_no_bengali_digit.
  - rewrite !bengali_to_english_digits_map, map_map.
    apply map_ext. intro c. apply ascii_equivalent_idempotent.
Qed.

(** ** The matcher *)

Module ReFacts.

Lemma firstn_consumed (w s' : str) :
  firstn (length (w ++ s') - length s') (w ++ s') = w.
Proof.
  rewrite length_app.
  replace (length w + length s' - length s') with (length w) by lia.
  rewrite firstn_app, Nat.sub_diag, firstn_all. simpl. apply app_nil_r.
Qed.

Section Soundness.
Context {A : Type}.
Implicit Types (k : @cont A) (x : A).

Lemma star_loop_sound (a : re) k x :
  (forall bol s g k', bt a bol s g k' = Some x -> run_ok a s g k' x) ->
  forall fuel bol s g,
    star_loop (bt a) k fuel bol s g = Some x -> run_ok (Star a) s g k x.
Proof.
  intros IHa fuel. induction fuel as [|f IHf]; intros bol s g H; simpl in H.
  - exists [], s, bol, g. repeat split; auto. constructor.
  - destruct (bt a bol s g _) as [y|] eqn:E.
    + injection H as ->.
      apply IHa in E. destruct E as (w & s' & bol' & g' & -> & Hw & Hk & Hg).
      destruct (length s' <? length (w ++ s')); [|discriminate].
      apply IHf in Hk. destruct Hk as (w2 & s2 & bol2 & g2 & -> & Hw2 & Hk2 & Hg2).
      exists (w ++ w2), s2, bol2, g2. repeat split.
      * now rewrite app_assoc.
      * now constructor.
      * exact Hk2.
      * intro Hn. simpl in *. rewrite Hg2, Hg; auto.
    + exists [], s, bol, g. repeat split; auto. constructor.
Qed.

Lemma bt_sound (r : re) :
  forall bol s g k x, bt r bol s g k = Some x -> run_ok r s g k x.
Proof.
  induction r as [| |p|a IHa b IHb|a IHa b IHb|a IHa|a IHa];
    intros bol s g k x H; simpl in H.
  - exists [], s, bol, g. repeat split; auto. constructor.
  - destruct bol; [|discriminate].
    exists [], s, true, g. repeat split; auto. constructor.
  - destruct s as [|c s']; [discriminate|].
    destruct (p c) eqn:Hp; [|discriminate].
    exists [c], s', false, g. repeat split; auto. now constructor.
  - apply IHa in H. destruct H as (w1 & s1 & bol1 & g1 & -> & Hw1 & Hk1 & Hg1).
    apply IHb in Hk1. destruct Hk1 as (w2 & s2 & bol2 & g2 & -> & Hw2 & Hk2 & Hg2).
    exists (w1 ++ w2), s2, bol2, g2. repeat split.
    + now rewrite app_assoc.
    + now constructor.
    + exact Hk2.
    + simpl. intro Hn. apply orb_false_iff in Hn. destruct Hn.
      rewrite Hg2, Hg1; auto.
  - destruct (bt a bol s g k) as [y|] eqn:E.
    + injection H as ->. apply IHa in E.
      destruct E as (w & s' & bol' & g' & -> & Hw & Hk & Hg).
      exists w, s', bol', g'. repeat split; auto.
      * now apply L_Alt_l.
      * simpl. intro Hn. apply orb_false_iff in Hn. destruct Hn. auto.
    + apply IHb in H.
      destruct H as (w & s' & bol' & g' & -> & Hw & Hk & Hg).
      exists w, s', bol', g'. repeat split; auto.
      * now apply L_Alt_r.
      * simpl. intro Hn. apply orb_false_iff in Hn. destruct Hn. auto.
  - eapply star_loop_sound; eauto.
  - apply IHa in H. destruct H as (w & s' & bol' & g' & -> & Hw & Hk & _).
    rewrite firstn_consumed in Hk.
    exists w, s', bol', (Some w). repeat split; auto.
    + now constructor.
    + simpl. discriminate.
Qed.

(** A group hands the text it matched to the continuation. *)
Lemma bt_group_sound (a : re) bol s g k x :
  bt (Group a) bol s g k = Some x ->
  exists w s' bol', s = w ++ s' /\ Lang a w /\ k bol' s' (Some w) = Some x.
Proof.
  simpl. intro H. apply bt_sound in H.
  destruct H as (w & s' & bol' & g' & -> & Hw & Hk & _).
  rewrite firstn_consumed in Hk. now exists w, s', bol'.
Qed.

(** [a{n}] for a character class takes the next [n] characters or fails;
    there is nothing to backtrack into. *)
Lemma bt_rep_chr (p : cp -> bool) (n : nat) :
  forall bol s g k,
    bt (Rep n (Chr p)) bol s g k =
    if (n <=? length s) && forallb p (firstn n s)
    then k (bol && (n =? 0)) (skipn n s) g
    else None.
Proof.
  induction n as [|n IH]; intros bol s g k.
  - simpl. now rewrite andb_true_r.
  - destruct s as [|c s']; [reflexivity|].
    cbn [Rep bt]. destruct (p c) eqn:Hp.
    + rewrite IH. cbn [length firstn forallb skipn Nat.leb Nat.eqb].
      rewrite Hp, andb_false_r. reflexivity.
    + cbn [length firstn forallb Nat.leb]. rewrite Hp.
      now rewrite andb_false_r.
Qed.

(** A literal takes exactly its own text. *)
Lemma bt_lit (l : str) :
  forall bol s g k,
    bt (Lit l) bol s g k =
    if startswith s l
    then k (bol && negb (truthy l)) (skipn (length l) s) g
    else None.
Proof.
  induction l as [|a l IH]; intros bol s g k.
  - simpl. now rewrite andb_true_r.
  - destruct s as [|b s']; [reflexivity|].
    cbn [Lit fold_right bt Lit1 startswith].
    destruct (N.eqb a b); [|reflexivity].
    fold (Lit l). rewrite IH. cbn [andb truthy negb length skipn].
    now rewrite andb_false_r.
Qed.

Lemma bt_cat (a b : re) bol s g k :
  bt (Cat a b) bol s g k = bt a bol s g (fun bol' s' g' => bt b bol' s' g' k).
Proof. reflexivity. Qed.
End Soundness.

(** A search that succeeds found its match at some split of the input. *)
Lemma search_from_some (r : re) :
  forall s bol pre m,
    search_from r bol pre s = Some m ->
    exists s1 s2 bol',
      s = s1 ++ s2 /\ m_pre m = rev pre ++ s1
      /\ match_here r bol' s2 = Some (m_post m, m_group1 m).
Proof.
  induction s as [|c s IH]; intros bol pre m H; simpl in H.
  - destruct (match_here r bol []) as [[s' g]|] eqn:E; [|discriminate].
    injection H as <-. exists [], [], bol. simpl. now rewrite app_nil_r.
  - destruct (match_here r bol (c :: s)) as [[s' g]|] eqn:E.
    + injection H as <-. exists [], (c :: s), bol. simpl. now rewrite app_nil_r.
    + apply IH in H. destruct H as (s1 & s2 & bol' & -> & Hpre & Hm).
      exists (c :: s1), s2, bol'. repeat split; auto.
      rewrite Hpre. simpl. now rewrite <- app_assoc.
Qed.

(** ... and at no earlier position of the scan is there a match. *)
Lemma search_from_leftmost (r : re) :
  forall s bol pre m,
    search_from r bol pre s = Some m ->
    forall k, k < length (m_pre m) - length pre ->
              match_here r (if k =? 0 then bol else false) (skipn k s) = None.
Proof.
  induction s as [|c s IH]; intros bol pre m H k Hk; simpl in H.
  - destruct (match_here r bol []) as [[s' g]|] eqn:E; [|discriminate].
    injection H as <-. cbn [m_pre] in Hk. rewrite length_rev in Hk. lia.
  - destruct (match_here r bol (c :: s)) as [[s' g]|] eqn:E.
    + injection H as <-. cbn [m_pre] in Hk. rewrite length_rev in Hk. lia.
    + destruct k as [|k]; [exact E|].
      specialize (IH false (c :: pre) m H k).
      cbn [length] in IH. cbn [skipn Nat.eqb].
      destruct (k =? 0); apply IH; lia.
Qed.

(** A pattern that matches somewhere is found by the search. *)
Lemma search_from_complete (r : re) :
  forall s1 s2 bol pre,
    (forall b, match_here r b s2 <> None) ->
    search_from r bol pre (s1 ++ s2) <> None.
Proof.
  induction s1 as [|c s1 IH]; intros s2 bol pre Hm.
  - simpl. specialize (Hm bol).
    destruct s2; simpl; destruct (match_here r bol _) as [[? ?]|]; congruence.
  - simpl. destruct (match_here r bol _) as [[? ?]|]; [discriminate|].
    now apply IH.
Qed.

(** A match splits the input: what was scanned over, the match, the rest. *)
Lemma search_from_text (r : re) :
  forall s bol pre m,
    search_from r bol pre s = Some m ->
    exists s1, s = s1 ++ m_text m ++ m_post m /\ m_pre m = rev pre ++ s1.
Proof.
  assert (Hhere : forall bol s s' g,
             match_here r bol s = Some (s', g) ->
             s = firstn (length s - length s') s ++ s').
  { intros bol s s' g E. apply bt_sound in E.
    destruct E as (w & s0 & b & g0 & -> & _ & Hk & _).
    injection Hk as <- _. now rewrite firstn_consumed. }
  induction s as [|c s IH]; intros bol pre m H; simpl in H.
  - destruct (match_here r bol []) as [[s' g]|] eqn:E; [|discriminate].
    injection H as <-. exists []. cbn [m_text m_post m_pre app].
    split; [now apply Hhere in E|now rewrite app_nil_r].
  - destruct (match_here r bol (c :: s)) as [[s' g]|] eqn:E.
    + injection H as <-. exists []. cbn [m_text m_post m_pre app].
      split; [now apply Hhere in E|now rewrite app_nil_r].
    + apply IH in H. destruct H as (s1 & Hs & Hpre).
      exists (c :: s1). split.
      * simpl. now f_equal.
      * rewrite Hpre. simpl. now rewrite <- app_assoc.
Qed.

(** *** The fuel of the loops is enough

    The loops of the matcher, of [sub] and of [split] recurse on a counter
    that starts at the length of the input; more fuel changes nothing, so
    the counter never cuts a loop short. *)

Lemma bt_ext {A : Type} (r : re) :
  forall bol s g (k1 k2 : @cont A),
    (forall b s' g', k1 b s' g' = k2 b s' g') ->
    bt r bol s g k1 = bt r bol s g k2.
Proof.
  induction r as [| |p|a IHa b IHb|a IHa b IHb|a IHa|a IHa];
    intros bol s g k1 k2 H; cbn [bt].
  - apply H.
  - destruct bol; auto.
  - destruct s as [|c s']; [reflexivity|]. destruct (p c); auto.
  - apply IHa. intros. now apply IHb.
  - rewrite (IHa _ _ _ k1 k2 H), (IHb _ _ _ k1 k2 H). reflexivity.
  - generalize (length s) as fuel. intro fuel. revert bol s g.
    induction fuel as [|f IHf]; intros bol s g; cbn [star_loop]; [apply H|].
    rewrite H.
    erewrite IHa; [reflexivity|].
    intros b s' g'. cbv beta. destruct (length s' <? length s); auto.
  - apply IHa. intros. apply H.
Qed.

Lemma star_loop_more_fuel {A : Type} (a : re) (k : @cont A) :
  forall f bol s g,
    length s <= f ->
    star_loop (bt a) k (S f) bol s g = star_loop (bt a) k f bol s g.
Proof.
  induction f as [|f IH]; intros bol s g Hlen.
  - destruct s; [|simpl in Hlen; lia].
    cbn [star_loop length].
    destruct (bt a bol [] g _) as [x|] eqn:E; [exfalso|reflexivity].
    apply bt_sound in E.
    destruct E as (w & s' & b & g' & _ & _ & Hk & _).
    cbv beta in Hk. cbn [length] in Hk.
    destruct (length s' <? 0) eqn:E0; [apply Nat.ltb_lt in E0; lia|discriminate].
  - cbn [star_loop].
    erewrite bt_ext; [reflexivity|].
    intros b s' g'. cbv beta.
    destruct (length s' <? length s) eqn:E; [|reflexivity].
    apply Nat.ltb_lt in E. apply IH. lia.
Qed.

Lemma star_fuel_enough {A : Type} (a : re) (k : @cont A) (extra : nat) :
  forall bol s g,
    star_loop (bt a) k (length s + extra) bol s g = bt (Star a) bol s g k.
Proof.
  intros bol s g. cbn [bt]. induction extra as [|e IH].
  - now rewrite Nat.add_0_r.
  - rewrite Nat.add_succ_r, star_loop_more_fuel by lia. exact IH.
Qed.

Lemma sub_from_more_fuel (r : re) (repl : str) :
  forall f bol s,
    length s < f ->
    sub_from (S f) r repl bol s = sub_from f r repl bol s.
Proof.
  induction f as [|f IH]; intros bol s Hlen; [lia|].
  cbn [sub_from].
  destruct (search_from r bol [] s) as [m|] eqn:E; [|reflexivity].
  apply search_from_text in E. destruct E as (s1 & Hs & _).
  assert (Hl : length s = length s1 + (length (m_text m) + length (m_post m))).
  { rewrite Hs at 1. now rewrite !length_app. }
  destruct (m_text m) as [|t ts]; destruct (m_post m) as [|c rest];
    cbn [length] in Hl; try reflexivity.
  - do 3 f_equal. apply IH. lia.
  - do 2 f_equal. apply IH. cbn [length]. lia.
  - do 2 f_equal. apply IH. cbn [length]. lia.
Qed.

Lemma sub_fuel_enough (r : re) (repl : str) (s : str) (extra : nat) :
  sub_from (S (length s) + extra) r repl true s = sub r repl s.
Proof.
  unfold sub. induction extra as [|e IH].
  - now rewrite Nat.add_0_r.
  - rewrite Nat.add_succ_r, sub_from_more_fuel by lia. exact IH.
Qed.

Lemma split_from_more_fuel (r : re) :
  forall f bol s,
    length s < f ->
    split_from (S f) r bol s = split_from f r bol s.
Proof.
  induction f as [|f IH]; intros bol s Hlen; [lia|].
  cbn [split_from].
  destruct (search_from r bol [] s) as [m|] eqn:E; [|reflexivity].
  apply search_from_text in E. destruct E as (s1 & Hs & _).
  assert (Hl : length s = length s1 + (length (m_text m) + length (m_post m))).
  { rewrite Hs at 1. now rewrite !length_app. }
  destruct (m_text m) as [|t ts]; [reflexivity|].
  f_equal. apply IH. cbn [length] in Hl. lia.
Qed.

Lemma split_fuel_enough (r : re) (s : str) (extra : nat) :
  split_from (S (length s) + extra) r true s = Re.split r s.
Proof.
  unfold Re.split. induction extra as [|e IH].
  - now rewrite Nat.add_0_r.
  - rewrite Nat.add_succ_r, split_from_more_fuel by lia. exact IH.
Qed.

Lemma Lang_rep_chr (p : cp -> bool) (n : nat) :
  forall w, Lang (Rep n (Chr p)) w -> length w = n /\ forallb p w = true.
Proof.
  induction n as [|n IH]; intros w H; simpl in H; inversion H; subst.
  - now split.
  - match goal with
    | H1 : Lang (Chr p) _, H2 : Lang (Rep n _) _ |- _ =>
        inversion H1; subst; apply IH in H2; destruct H2 as [<- Hall]
    end.
    simpl. split; [reflexivity|]. now apply andb_true_iff.
Qed.

Lemma Lang_star_chr (p : cp -> bool) :
  forall w, Lang (Star (Chr p)) w -> forallb p w = true.
Proof.
  intros w H. remember (Star (Chr p)) as r eqn:Hr.
  induction H; try discriminate; injection Hr as ->.
  - reflexivity.
  - match goal with H1 : Lang (Chr p) _ |- _ => inversion H1; subst end.
    simpl. apply andb_true_iff. split; auto.
Qed.

Lemma Lang_plus_chr (p : cp -> bool) (w : str) :
  Lang (Plus (Chr p)) w -> w <> [] /\ forallb p w = true.
Proof.
  intro H. inversion H; subst.
  match goal with
  | H1 : Lang (Chr p) _, H2 : Lang (Star _) _ |- _ =>
      inversion H1; subst; apply Lang_star_chr in H2
  end.
  simpl. split; [discriminate|]. now apply andb_true_iff.
Qed.

Lemma Lang_no_group_lit (s : str) : has_group (Lit s) = false.
Proof. induction s; simpl; auto. Qed.

End ReFacts.

(** ** Phone extraction *)

Lemma match_here_digits11 (bol : bool) (s : str) :
  match_here (Group (Rep 11 digit)) bol s =
  if (11 <=? length s) && forallb isdecimal (firstn 11 s)
  then Some (skipn 11 s, Some (firstn 11 s))
  else None.
Proof.
  unfold match_here, digit. cbn [bt]. rewrite ReFacts.bt_rep_chr.
  destruct (11 <=? length s) eqn:Hlen; [|reflexivity].
  apply Nat.leb_le in Hlen.
  destruct (forallb isdecimal (firstn 11 s)); [|reflexivity].
  cbn [andb]. rewrite length_skipn.
  replace (length s - (length s - 11)) with 11 by lia. reflexivity.
Qed.

(** What the first phone pattern finds: eleven characters of class [\d],
    taken from the line. *)
Lemma search_digits11 (s : str) (m : Match) :
  search (Group (Rep 11 digit)) s = Some m ->
  exists w, m_group1 m = Some w /\ length w = 11 /\ forallb isdecimal w = true
            /\ s = m_pre m ++ w ++ m_post m.
Proof.
  intro H. apply ReFacts.search_from_some in H.
  destruct H as (s1 & s2 & bol' & -> & Hpre & Hm).
  rewrite match_here_digits11 in Hm.
  destruct (11 <=? length s2) eqn:Hlen; [|discriminate].
  destruct (forallb isdecimal (firstn 11 s2)) eqn:Hd; [|discriminate].
  injection Hm as Hpost Hg. apply Nat.leb_le in Hlen.
  exists (firstn 11 s2). repeat split; auto.
  - rewrite length_firstn. lia.
  - rewrite Hpre, <- Hpost, firstn_skipn. reflexivity.
Qed.

(** Wherever [\+88(\d{11})] matches, [(\d{11})] matches as well (three
    characters later), so the loop over [phone_patterns] never gets to the
    second pattern with a line it could match. *)
Lemma startswith_app (s l : str) :
  startswith s l = true -> s = l ++ skipn (length l) s.
Proof.
  revert s. induction l as [|a l IH]; intros s H; [reflexivity|].
  destruct s as [|b s']; [discriminate|].
  simpl in H. apply andb_true_iff in H. destruct H as [Hab Hl].
  apply N.eqb_eq in Hab. subst b. simpl. f_equal. now apply IH.
Qed.

Lemma plus88_pattern_unreachable (s : str) :
  search (Group (Rep 11 digit)) s = None ->
  search (Lit (u "+88") >> Group (Rep 11 digit)) s = None.
Proof.
  intro Hnone.
  destruct (search (Lit (u "+88") >> Group (Rep 11 digit)) s) as [m|] eqn:E;
    [exfalso|reflexivity].
  apply ReFacts.search_from_some in E.
  destruct E as (s1 & s2 & bol' & -> & _ & Hm).
  unfold match_here in Hm. rewrite ReFacts.bt_cat, ReFacts.bt_lit in Hm.
  destruct (startswith s2 (u "+88")) eqn:Hpre; [|discriminate].
  apply startswith_app in Hpre.
  set (s3 := skipn (length (u "+88")) s2) in *.
  fold (match_here (Group (Rep 11 digit)) (bol' && negb (truthy (u "+88"))) s3) in Hm.
  rewrite match_here_digits11 in Hm.
  destruct ((11 <=? length s3) && forallb isdecimal (firstn 11 s3)) eqn:Hc;
    [|discriminate].
  revert Hnone. rewrite Hpre, app_assoc.
  apply ReFacts.search_from_complete.
  intro b. rewrite match_here_digits11, Hc. discriminate.
Qed.

Lemma extract_phone_number_first_pattern (line : str) :
  extract_phone_number line =
  match search (Group (Rep 11 digit)) (bengali_to_english_digits line) with
  | Some m => m_group1 m
  | None => None
  end.
Proof.
  unfold extract_phone_number, phone_patterns, first_group1.
  destruct (search (Group (Rep 11 digit)) _) eqn:E; [reflexivity|].
  now rewrite (plus88_pattern_unreachable _ E).
Qed.

Lemma extract_phone_number_shape (line p : str) :
  extract_phone_number line = Some p ->
  phone_shape p /\
  exists pre post, bengali_to_english_digits line = pre ++ p ++ post.
Proof.
  rewrite extract_phone_number_first_pattern.
  destruct (search _ _) as [m|] eqn:E; [|discriminate].
  intro Hg. apply search_digits11 in E.
  destruct E as (w & Hw & Hlen & Hd & Hs).
  rewrite Hw in Hg. injection Hg as ->.
  split; [|now exists (m_pre m), (m_post m)].
  repeat split; auto.
  pose proof (normalized_has_no_bengali_digit line) as Hn.
  rewrite Hs, !forallb_app in Hn.
  apply andb_true_iff in Hn. destruct Hn as [_ Hn].
  apply andb_true_iff in Hn. tauto.
Qed.

(** The number is the leftmost window of eleven digits of the normalised
    line: no window starts before it. *)
Lemma extract_phone_number_leftmost (line p : str) :
  extract_phone_number line = Some p ->
  exists pre post,
    bengali_to_english_digits line = pre ++ p ++ post
    /\ forall k, k < length pre ->
                 (11 <=? length (skipn k (bengali_to_english_digits line)))
                 && forallb isdecimal (firstn 11 (skipn k (bengali_to_english_digits line)))
                 = false.
Proof.
  rewrite extract_phone_number_first_pattern.
  destruct (search _ _) as [m|] eqn:E; [|discriminate].
  intro Hg. pose proof (search_digits11 _ _ E) as (w & Hw & _ & _ & Hs).
  rewrite Hw in Hg. injection Hg as ->.
  exists (m_pre m), (m_post m). split; [exact Hs|].
  intros k Hk.
  pose proof (ReFacts.search_from_leftmost _ _ _ _ _ E k) as Hl.
  cbn [length] in Hl. rewrite Nat.sub_0_r in Hl. specialize (Hl Hk).
  rewrite match_here_digits11 in Hl.
  now destruct ((11 <=? _) && _).
Qed.

Lemma extract_phone_number_nil : extract_phone_number [] = None.
Proof. reflexivity. Qed.

Lemma phone_line_step (i : nat) (raw : str) (later : list str) (st : fields) :
  phone (line_step i raw later st) = phone_step (phone st) raw.
Proof.
  unfold line_step, phone_step.
  destruct (strip raw) as [|c line] eqn:Hline.
  - cbn [truthy negb]. rewrite extract_phone_number_nil.
    now destruct (phone st).
  - cbn [truthy negb].
    set (l := c :: line).
    destruct (has_order_marker l), (next_nonempty later), (is_address_line l),
      (negb (truthy (name st)) && _); cbn [phone];
      destruct (truthy (phone st)) eqn:Hp; cbn [negb phone]; try reflexivity;
      destruct (extract_phone_number l) as [[|d p]|]; cbn [truthy phone];
      try reflexivity; now destruct (phone st).
Qed.

Lemma phone_scan_lines (lines : list str) :
  forall i st, phone (scan_lines i lines st) = fold_left phone_step lines (phone st).
Proof.
  induction lines as [|raw later IH]; intros i st; simpl; [reflexivity|].
  now rewrite IH, phone_line_step.
Qed.

Lemma phone_step_set (ph : str) (lines : list str) :
  truthy ph = true -> fold_left phone_step lines ph = ph.
Proof.
  intro H. induction lines as [|raw later IH]; simpl; [reflexivity|].
  unfold phone_step at 2. now rewrite H.
Qed.

(** First match wins: the lines before the first one with a number leave the
    phone empty, that line sets it, and no later line changes it. *)
Lemma phone_first_match_wins (before after : list str) (raw p : str) :
  Forall (fun l => extract_phone_number (strip l) = None) before ->
  extract_phone_number (strip raw) = Some p ->
  fold_left phone_step (before ++ raw :: after) [] = p.
Proof.
  intros Hb Hp. rewrite fold_left_app.
  assert (Hnil : fold_left phone_step before [] = []).
  { induction Hb as [|l ls Hl _ IH]; simpl; [reflexivity|].
    unfold phone_step at 2. cbn [truthy]. now rewrite Hl. }
  rewrite Hnil. simpl. unfold phone_step at 2. cbn [truthy]. rewrite Hp.
  apply phone_step_set.
  apply extract_phone_number_shape in Hp. destruct Hp as [[Hlen _] _].
  destruct p; [discriminate|reflexivity].
Qed.

Lemma phone_no_match (lines : list str) :
  Forall (fun l => extract_phone_number (strip l) = None) lines ->
  fold_left phone_step lines [] = [].
Proof.
  intro H. induction H as [|l ls Hl _ IH]; simpl; [reflexivity|].
  unfold phone_step at 2. cbn [truthy]. now rewrite Hl.
Qed.

Lemma phone_fold_shape (lines : list str) :
  forall ph, (ph = [] \/ phone_shape ph) ->
             fold_left phone_step lines ph = [] \/ phone_shape (fold_left phone_step lines ph).
Proof.
  induction lines as [|raw later IH]; intros ph H; simpl; [exact H|].
  apply IH. unfold phone_step.
  destruct (truthy ph); [exact H|].
  destruct (extract_phone_number (strip raw)) as [p|] eqn:E; [|now left].
  right. now apply extract_phone_number_shape in E.
Qed.

Lemma process_customer_block_phone (block_text : str) :
  Phone (process_customer_block block_text)
  = fold_left phone_step (block_lines block_text) [].
Proof. unfold process_customer_block. cbn [Phone]. now rewrite phone_scan_lines. Qed.

(** X12. In a block, the first line with eleven consecutive digits gives
    the Phone, whatever the lines after it hold: a second number further down
    does not replace it. *)
Lemma process_customer_block_phone_first_match
  (block_text : str) (before after : list str) (raw p : str) :
  block_lines block_text = before ++ raw :: after ->
  Forall (fun l => extract_phone_number (strip l) = None) before ->
  extract_phone_number (strip raw) = Some p ->
  Phone (process_customer_block block_text) = p.
Proof.
  intros Hl Hb Hp. rewrite process_customer_block_phone, Hl.
  now apply phone_first_match_wins.
Qed.

(** C10, as the code has it. The Phone of a record is empty or has exactly
    eleven characters, each of the class [\d] of the pattern (a decimal digit
    of any script) and none a Bengali digit; so the validator's test of the
    length adds nothing to its test of emptiness on an extracted Phone. *)
Theorem phone_empty_or_eleven_digits (block_text : str) :
  let p := Phone (process_customer_block block_text) in
  (p = [] \/ (length p = 11 /\ forallb isdecimal p = true
              /\ forallb (fun c => negb (is_bengali_digit c)) p = true))
  /\ negb (truthy p) || negb (length p =? 11) = negb (truthy p).
Proof.
  cbv zeta. rewrite process_customer_block_phone.
  destruct (phone_fold_shape (block_lines block_text) [] (or_introl eq_refl))
    as [H|H].
  - rewrite H. split; [now left|reflexivity].
  - split; [now right|].
    destruct H as (Hlen & _). rewrite Hlen.
    now destruct (truthy _).
Qed.

(** C10, as stated, fails: eleven Devanagari digits are a match of [\d{11}],
    and normalisation leaves them as they are. *)
Lemma phone_of_devanagari_digits_not_ascii :
  let p := Phone (process_customer_block (u "०१७१२३४५६७८")) in
  ~ (p = [] \/ (length p = 11 /\ forallb is_ascii_digit p = true)).
Proof.
  vm_compute. intros [H|[_ H]]; discriminate.
Qed.

(** C1. A line with the country code: the first pattern takes the first
    eleven digits it sees, the two digits of the code among them, and the
    pattern written for the prefix is never tried. *)
Theorem plus88_prefix_not_stripped :
  extract_phone_number (u "+8801712345678") = Some (u "88017123456")
  /\ Phone (process_customer_block (u "+8801712345678")) = u "88017123456"
  /\ u "88017123456" <> u "01712345678".
Proof.
  repeat split; try (vm_compute; reflexivity).
  vm_compute. discriminate.
Qed.

(** ** Amount *)

Lemma bt_alt {A : Type} (a b : re) bol s g (k : @cont A) :
  bt (a <|> b) bol s g k =
  match bt a bol s g k with
  | Some x => Some x
  | None => bt b bol s g k
  end.
Proof. reflexivity. Qed.

(** [extract_amount] returns [None] or a non-empty string of digits taken
    from the normalised note. *)
Lemma extract_amount_shape (note_text : str) :
  extract_amount note_text = None
  \/ exists a, extract_amount note_text = Some a /\ a <> []
               /\ forallb isdecimal a = true
               /\ exists pre post,
                   bengali_to_english_digits note_text = pre ++ a ++ post.
Proof.
  unfold extract_amount. cbv zeta.
  set (text := bengali_to_english_digits note_text).
  destruct (search amount_pattern text) as [m|] eqn:E1.
  - apply ReFacts.search_from_some in E1.
    destruct E1 as (s1 & s2 & bol' & Htext & _ & Hm).
    unfold match_here, amount_pattern in Hm. rewrite bt_alt in Hm.
    destruct (bt (Group (Plus digit) >> _) bol' s2 None _) as [x|] eqn:Ea.
    + injection Hm as ->. rewrite ReFacts.bt_cat in Ea.
      apply ReFacts.bt_group_sound in Ea.
      destruct Ea as (w & s' & b1 & Hs2 & Hw & Hk).
      apply ReFacts.bt_sound in Hk.
      destruct Hk as (w2 & s'' & b2 & g2 & _ & _ & Hk & Hg).
      injection Hk as _ Hg1. rewrite <- Hg1, Hg by reflexivity.
      right. exists w. split; [reflexivity|].
      apply ReFacts.Lang_plus_chr in Hw. destruct Hw as [Hne Hd].
      repeat split; auto. exists s1, s'. now rewrite Htext, Hs2.
    + apply ReFacts.bt_sound in Hm.
      destruct Hm as (w & s' & b1 & g1 & _ & _ & Hk & Hg).
      injection Hk as _ Hg1. rewrite <- Hg1, Hg by reflexivity.
      now left.
  - destruct (search (Group (Plus digit)) text) as [m|] eqn:E2; [|now left].
    apply ReFacts.search_from_some in E2.
    destruct E2 as (s1 & s2 & bol' & Htext & _ & Hm).
    apply ReFacts.bt_group_sound in Hm.
    destruct Hm as (w & s' & b1 & Hs2 & Hw & Hk).
    injection Hk as _ Hg1. rewrite <- Hg1.
    right. exists w. split; [reflexivity|].
    apply ReFacts.Lang_plus_chr in Hw. destruct Hw as [Hne Hd].
    repeat split; auto. exists s1, s'. now rewrite Htext, Hs2.
Qed.

Lemma bengali_digit_isdecimal (c : cp) :
  is_bengali_digit c = true -> isdecimal c = true.
Proof.
  intro H. unfold isdecimal, in_ranges. apply existsb_exists.
  exists (0x9E6, 0x9EF)%N. split; [|exact H].
  unfold decimal_ranges. simpl. tauto.
Qed.

Lemma ascii_digit_isdecimal (c : cp) :
  is_ascii_digit c = true -> isdecimal c = true.
Proof.
  intro H. unfold isdecimal, in_ranges. apply existsb_exists.
  exists (0x30, 0x39)%N. split; [|exact H].
  unfold decimal_ranges. simpl. tauto.
Qed.

(** A note without any digit has no amount: the function returns [None]. *)
Lemma extract_amount_no_digit (note_text : str) :
  forallb (fun c => negb (isdecimal c)) note_text = true ->
  extract_amount note_text = None.
Proof.
  intro Hnd.
  assert (Htext : bengali_to_english_digits note_text = note_text).
  { rewrite bengali_to_english_digits_map.
    rewrite <- (map_id note_text) at 2. apply map_ext_in.
    intros c Hc. rewrite forallb_forall in Hnd. specialize (Hnd c Hc).
    unfold ascii_equivalent.
    destruct (is_bengali_digit c) eqn:Eb; [|reflexivity].
    apply bengali_digit_isdecimal in Eb. rewrite Eb in Hnd. discriminate. }
  destruct (extract_amount_shape note_text)
    as [H|(a & _ & Hne & Hd & pre & post & Hs)]; [exact H|].
  exfalso. rewrite Htext in Hs. rewrite Hs, !forallb_app in Hnd.
  apply andb_true_iff in Hnd. destruct Hnd as [_ Hnd].
  apply andb_true_iff in Hnd. destruct Hnd as [Hnd _].
  destruct a as [|c a]; [congruence|].
  simpl in Hd, Hnd.
  apply andb_true_iff in Hd. apply andb_true_iff in Hnd.
  destruct Hd as [Hd _]. destruct Hnd as [Hnd _].
  rewrite Hd in Hnd. discriminate.
Qed.

(** C2. In the note "500 Taka shirt" the bare word is a match of the amount
    pattern, its group 1 is unset, and the function returns that [None]
    without trying the fallback; the same note with the Bengali unit gives
    "500". *)
Theorem amount_of_taka_note_is_none :
  extract_amount (u "500 Taka shirt") = None
  /\ option_map m_text (search amount_pattern (u "500 Taka shirt")) = Some (u "Taka")
  /\ extract_amount (u "৫০০ টাকা শার্ট") = Some (u "500").
Proof. repeat split; vm_compute; reflexivity. Qed.

(** ** Note and Amount through the loop *)

Lemma has_order_marker_nil : has_order_marker [] = false.
Proof. vm_compute. reflexivity. Qed.

Lemma is_address_line_nil : is_address_line [] = false.
Proof. vm_compute. reflexivity. Qed.

Lemma note_candidates_cons (raw : str) (later : list str) :
  note_candidates (raw :: later)
  = match note_of_line raw later with
    | Some n => [n]
    | None => []
    end ++ note_candidates later.
Proof.
  unfold note_of_line. cbn [note_candidates].
  destruct (truthy (strip raw) && has_order_marker (strip raw)); [|reflexivity].
  now destruct (next_nonempty later).
Qed.

Lemma note_line_step (i : nat) (raw : str) (later : list str) (st : fields) :
  note (line_step i raw later st)
  = match note_of_line raw later with
    | Some n => n
    | None => note st
    end
  /\ amount (line_step i raw later st)
     = match note_of_line raw later with
       | Some n => extract_amount n
       | None => amount st
       end.
Proof.
  unfold line_step, note_of_line.
  destruct (strip raw) as [|c line] eqn:Hline; cbn [truthy negb andb].
  - now split.
  - set (l := c :: line).
    destruct (has_order_marker l); [destruct (next_nonempty later)|];
      cbn [option_map note amount];
      try (split; reflexivity);
      destruct (is_address_line l), (negb (truthy (name st)) && _);
      cbn [phone note amount];
      destruct (negb (truthy (phone st))); try (split; reflexivity);
      destruct (extract_phone_number l) as [[|d p]|]; cbn [truthy note amount];
      split; reflexivity.
Qed.

Lemma last_cons_default {A : Type} (l : list A) :
  forall a d, last (a :: l) d = last l a.
Proof.
  induction l as [|b l IH]; intros a d; [reflexivity|].
  change (last (a :: b :: l) d) with (last (b :: l) d).
  now rewrite !IH.
Qed.

Lemma last_app_default {A : Type} (l1 l2 : list A) :
  forall d, last (l1 ++ l2) d = last l2 (last l1 d).
Proof.
  induction l1 as [|a l1 IH]; intro d; [reflexivity|].
  rewrite <- app_comm_cons, !last_cons_default. apply IH.
Qed.

Lemma last_map_nonempty {A B : Type} (f : A -> B) (l : list A) (d : A) (e : B) :
  l <> [] -> last (map f l) e = f (last l d).
Proof.
  induction l as [|a l IH]; intro H; [congruence|].
  destruct l as [|b l]; [reflexivity|].
  change (last (map f (a :: b :: l)) e) with (last (map f (b :: l)) e).
  change (last (a :: b :: l) d) with (last (b :: l) d).
  apply IH. discriminate.
Qed.

Lemma note_scan_lines (lines : list str) :
  forall i st,
    note (scan_lines i lines st) = last (note_candidates lines) (note st)
    /\ amount (scan_lines i lines st)
       = last (map extract_amount (note_candidates lines)) (amount st).
Proof.
  induction lines as [|raw later IH]; intros i st; [now split|].
  cbn [scan_lines]. destruct (IH (S i) (line_step i raw later st)) as [Hn Ha].
  destruct (note_line_step i raw later st) as [Hn1 Ha1].
  rewrite Hn, Ha, Hn1, Ha1, note_candidates_cons, map_app, !last_app_default.
  now destruct (note_of_line raw later).
Qed.

Lemma next_nonempty_truthy (later : list str) (l : str) :
  next_nonempty later = Some l -> truthy (strip l) = true.
Proof. intro H. now apply find_some in H. Qed.

Lemma note_candidates_truthy (lines : list str) :
  Forall (fun n => truthy n = true) (note_candidates lines).
Proof.
  induction lines as [|raw later IH]; [constructor|].
  rewrite note_candidates_cons. apply Forall_app. split; [|exact IH].
  unfold note_of_line.
  destruct (truthy (strip raw) && has_order_marker (strip raw)); [|constructor].
  destruct (next_nonempty later) as [l|] eqn:E; [|constructor].
  apply next_nonempty_truthy in E. now repeat constructor.
Qed.

Lemma last_Forall {A : Type} (P : A -> Prop) (l : list A) (d : A) :
  Forall P l -> l <> [] -> P (last l d).
Proof.
  induction 1 as [|a l Ha Hl IH]; intro H; [congruence|].
  destruct l as [|b l]; [exact Ha|].
  change (last (a :: b :: l) d) with (last (b :: l) d). apply IH. discriminate.
Qed.

Lemma note_and_amount_of_block (block_text : str) :
  let r := process_customer_block block_text in
  let notes := note_candidates (block_lines block_text) in
  Note r = last notes []
  /\ Amount r = last (map extract_amount notes) (Some []).
Proof.
  cbv zeta. unfold process_customer_block. cbn [Note Amount].
  apply (note_scan_lines (block_lines block_text) 0 init_fields).
Qed.

(** C3, as the code has it. Note is the order note announced by the last
    line with an order marker that has a non-empty line after it (the empty
    string when there is none), and Amount is [extract_amount] of that note:
    every such line overwrites what an earlier one had set. *)
Theorem last_order_marker_sets_note_and_amount (block_text : str) :
  let r := process_customer_block block_text in
  let notes := note_candidates (block_lines block_text) in
  Note r = last notes []
  /\ Amount r = last (map extract_amount notes) (Some []).
Proof.
  exact (note_and_amount_of_block block_text).
Qed.

Lemma note_candidates_app (before lines : list str) :
  exists earlier, note_candidates (before ++ lines) = earlier ++ note_candidates lines.
Proof.
  induction before as [|raw before [earlier IH]].
  - now exists [].
  - rewrite <- app_comm_cons, note_candidates_cons, IH, app_assoc. eauto.
Qed.

(** The same, seen from the marker line that wins: an order-marker line
    whose next non-empty line is [l], with no further order note after it,
    leaves [l] in Note and its amount in Amount. *)
Lemma note_of_last_order_marker
  (block_text : str) (before after : list str) (raw n : str) :
  block_lines block_text = before ++ raw :: after ->
  note_of_line raw after = Some n ->
  note_candidates after = [] ->
  Note (process_customer_block block_text) = n
  /\ Amount (process_customer_block block_text) = extract_amount n.
Proof.
  intros Hl Hn Hafter.
  destruct (note_and_amount_of_block block_text) as [H1 H2]. rewrite H1, H2, Hl.
  destruct (note_candidates_app before (raw :: after)) as [earlier ->].
  rewrite note_candidates_cons, Hn, Hafter, map_app, !last_app_default.
  now split.
Qed.

(** C3, as stated, fails: with two order markers the second one's note
    replaces the first one's. *)
Lemma later_order_marker_overwrites :
  let block := join [nl] [u "order"; u "100 টাকা"; u "order"; u "200 টাকা"] in
  length (filter (fun l => has_order_marker (strip l)) (block_lines block)) = 2
  /\ first_order_note (block_lines block) = Some (u "100 টাকা")
  /\ ~ (Note (process_customer_block block) = u "100 টাকা"
        /\ Amount (process_customer_block block) = extract_amount (u "100 টাকা")).
Proof.
  vm_compute. repeat split. intros [H _]. discriminate.
Qed.

(** Note and Amount go together: both empty, or a note and what
    [extract_amount] returns for it. *)
Lemma note_and_amount_cases (block_text : str) :
  let r := process_customer_block block_text in
  Delivery_Type r = u "Home"
  /\ ((Note r = [] /\ Amount r = Some [])
      \/ (Note r <> [] /\ Amount r = extract_amount (Note r)
          /\ (Amount r = None
              \/ exists a, Amount r = Some a /\ a <> []
                           /\ forallb isdecimal a = true))).
Proof.
  cbv zeta. split; [reflexivity|].
  destruct (note_and_amount_of_block block_text) as [Hn Ha].
  destruct (note_candidates (block_lines block_text)) as [|n ns] eqn:E.
  - left. now rewrite Hn, Ha.
  - right.
    assert (Hne : n :: ns <> []) by discriminate.
    rewrite (last_map_nonempty extract_amount _ [] _ Hne) in Ha.
    rewrite <- Hn in Ha.
    pose proof (note_candidates_truthy (block_lines block_text)) as HF.
    rewrite E in HF.
    assert (Ht : truthy (last (n :: ns) []) = true)
      by exact (last_Forall _ _ [] HF Hne).
    rewrite <- Hn in Ht.
    repeat split.
    + intro H0. rewrite H0 in Ht. discriminate.
    + exact Ha.
    + rewrite Ha.
      destruct (extract_amount_shape (Note (process_customer_block block_text)))
        as [H|(a & H1 & H2 & H3 & _)]; [now left|].
      right. now exists a.
Qed.

(** C4, as stated, fails: an order note without a number leaves [None] in
    Amount. *)
Lemma amount_can_be_none :
  Amount (process_customer_block
            (join [nl] [u "name: Rahim"; u "order"; u "shirt"])) = None.
Proof. vm_compute. reflexivity. Qed.

(** ** Address *)

Lemma address_line_step (i : nat) (raw : str) (later : list str) (st : fields) :
  address_lines (line_step i raw later st)
  = address_lines st ++ filter is_address_line [strip raw].
Proof.
  unfold line_step. cbn [filter].
  destruct (strip raw) as [|c line] eqn:Hline; cbn [truthy negb].
  - rewrite is_address_line_nil. now rewrite app_nil_r.
  - set (l := c :: line).
    destruct (has_order_marker l); [destruct (next_nonempty later)|];
      cbn [address_lines];
      destruct (is_address_line l), (negb (truthy (name st)) && _);
      cbn [phone address_lines];
      destruct (negb (truthy (phone st)));
      try (now rewrite ?app_nil_r);
      destruct (extract_phone_number l) as [[|d p]|];
      cbn [truthy address_lines]; now rewrite ?app_nil_r.
Qed.

Lemma address_scan_lines (lines : list str) :
  forall i st,
    address_lines (scan_lines i lines st)
    = address_lines st ++ filter is_address_line (map strip lines).
Proof.
  induction lines as [|raw later IH]; intros i st.
  - simpl. now rewrite app_nil_r.
  - cbn [scan_lines]. rewrite IH, address_line_step, <- app_assoc.
    f_equal. cbn [map filter]. now destruct (is_address_line (strip raw)).
Qed.

(** C9, as the code has it. A line goes to the address exactly when, once
    stripped, it contains one of the address keywords and none of the order
    keywords, both as written (the test is [keyword in line], which tells
    capitals from small letters); Address is these lines in scan order, joined
    by newlines. *)
Theorem address_is_keyword_lines_joined (block_text : str) :
  Address (process_customer_block block_text)
  = join [nl] (filter is_address_line (map strip (block_lines block_text))).
Proof.
  unfold process_customer_block. cbn [Address].
  now rewrite address_scan_lines.
Qed.

(** C9, as stated, fails: "Address: Dhaka" holds the keyword [address] up to
    case and no order keyword, and is not taken. *)
Lemma capitalised_address_keyword_not_matched :
  let block := join [nl] [u "name: Karim"; u "Address: Dhaka"] in
  is_address_line_ci (u "Address: Dhaka") = true
  /\ Address (process_customer_block block) = []
  /\ Address (process_customer_block block)
     <> join [nl] (filter is_address_line_ci (map strip (block_lines block))).
Proof.
  vm_compute. repeat split. discriminate.
Qed.

(** ** Validation *)

(** C5. The list [validate_data] returns holds exactly the fields, of Name,
    Phone, Address and Amount in this order, that are empty, and Phone also
    when its length is not 11. *)
Theorem validate_data_defects (data : Customer) :
  validate_data data = filter (is_defect data) [F_Name; F_Phone; F_Address; F_Amount]
  /\ (forall f, In f (validate_data data) <-> is_defect data f = true)
  /\ NoDup (validate_data data).
Proof.
  assert (H : validate_data data
              = filter (is_defect data) [F_Name; F_Phone; F_Address; F_Amount]).
  { unfold validate_data, is_defect, field_empty, falsy_opt. cbn [filter].
    rewrite !orb_false_r.
    destruct (negb (truthy (Name data)));
      destruct (negb (truthy (Phone data)) || negb (length (Phone data) =? 11));
      destruct (negb (truthy (Address data)));
      destruct (Amount data) as [a|]; try destruct (negb (truthy a));
      reflexivity. }
  split; [exact H|]. split.
  - intro f. rewrite H, filter_In. split; [tauto|].
    intro Hd. split; [|exact Hd]. destruct f; simpl; tauto.
  - rewrite H. apply NoDup_filter.
    repeat constructor; simpl; intuition discriminate.
Qed.

Example validate_ten_digit_phone :
  In F_Phone (validate_data
                {| Name := u "Rahim"; Address := u "জেলা: Dhaka";
                   Phone := u "0171234567"; Amount := Some (u "500");
                   Note := u "500"; Delivery_Type := u "Home" |}).
Proof. vm_compute. auto. Qed.

Example validate_complete_record :
  validate_data
    {| Name := u "Rahim"; Address := u "জেলা: Dhaka";
       Phone := u "01712345678"; Amount := Some (u "500");
       Note := u "500"; Delivery_Type := u "Home" |} = [].
Proof. reflexivity. Qed.

Lemma validate_data_nil_iff (data : Customer) :
  validate_data data = []
  <-> (Name data <> [] /\ length (Phone data) = 11 /\ Address data <> []
       /\ exists a, Amount data = Some a /\ a <> []).
Proof.
  unfold validate_data.
  destruct (Name data) as [|c1 n]; cbn [truthy negb app];
    destruct (Phone data) as [|c2 p] eqn:Hp; cbn [truthy negb orb app];
    destruct (Address data) as [|c3 a]; cbn [truthy negb app];
    destruct (Amount data) as [[|c4 m]|]; cbn [falsy_opt truthy negb app];
    try (split; [discriminate|];
         intros (H1 & H2 & H3 & (x & H4 & H5)); try congruence;
         simpl in H2; try discriminate).
  all: try (destruct (length (c2 :: p) =? 11) eqn:E; cbn [negb app];
            [apply Nat.eqb_eq in E | apply Nat.eqb_neq in E]).
  all: try (split; [discriminate|]; intros (H1 & H2 & H3 & (x & H4 & H5));
            congruence).
  all: try (split; [intros _|reflexivity]; repeat split; try discriminate;
            [exact E | eexists; split; [reflexivity|discriminate]]).
Qed.

(** ** Segmentation *)

Lemma seg_loop_skips_empty (blocks : list str) :
  forall st,
    fold_left seg_step blocks st
    = fold_left lines_step (filter truthy (map clean_lines blocks)) st.
Proof.
  induction blocks as [|b bs IH]; intros [cbs cur]; [reflexivity|].
  cbn [fold_left map filter]. unfold seg_step at 2.
  destruct (clean_lines b) as [|l ls] eqn:E; cbn [truthy negb].
  - apply IH.
  - cbn [fold_left]. rewrite IH. unfold lines_step at 2. reflexivity.
Qed.

Lemma regroup_cons_not_nil (seg : list str) (rest : list (list str)) :
  regroup (seg :: rest) <> [].
Proof.
  cbn [regroup]. destruct (regroup rest); [discriminate|].
  destruct (opens_block rest); discriminate.
Qed.

Lemma regroup_marked (cur seg : list str) (rest : list (list str)) :
  starts_with_name seg = true ->
  regroup (cur :: seg :: rest) = cur :: regroup (seg :: rest).
Proof.
  intro H. change (regroup (cur :: seg :: rest))
    with (match regroup (seg :: rest) with
          | g :: gs => if starts_with_name seg then cur :: g :: gs else (cur ++ g) :: gs
          | [] => [cur]
          end).
  pose proof (regroup_cons_not_nil seg rest) as Hne.
  destruct (regroup (seg :: rest)); [congruence|]. now rewrite H.
Qed.

Lemma regroup_unmarked (cur seg : list str) (rest : list (list str)) :
  starts_with_name seg = false ->
  regroup (cur :: seg :: rest) = regroup ((cur ++ seg) :: rest).
Proof.
  intro H. change (regroup (cur :: seg :: rest))
    with (match regroup (seg :: rest) with
          | g :: gs => if starts_with_name seg then cur :: g :: gs else (cur ++ g) :: gs
          | [] => [cur]
          end).
  rewrite H. cbn [regroup].
  destruct (regroup rest) as [|g gs]; [reflexivity|].
  destruct (opens_block rest); [reflexivity|].
  now rewrite app_assoc.
Qed.

(** The loop, started with a block that is being accumulated, and the flush
    after it. *)
Lemma seg_loop_regroup (rest : list (list str)) :
  forall cbs cur,
    cur <> [] ->
    Forall (fun seg => seg <> []) rest ->
    exists cur',
      fold_left lines_step rest (cbs, cur)
      = (cbs ++ map (join [nl]) (removelast (regroup (cur :: rest))), cur')
      /\ cur' <> []
      /\ last (regroup (cur :: rest)) [] = cur'.
Proof.
  induction rest as [|seg rest IH]; intros cbs cur Hcur Hall.
  - exists cur. simpl. now rewrite app_nil_r.
  - inversion Hall as [|? ? Hseg Hrest]; subst.
    cbn [fold_left]. unfold lines_step at 2.
    assert (Ht : truthy cur = true) by (destruct cur; [congruence|reflexivity]).
    rewrite Ht, andb_true_r.
    destruct (starts_with_name seg) eqn:Hm.
    + destruct (IH (cbs ++ [join [nl] cur]) seg Hseg Hrest) as (cur' & Hf & Hne & Hl).
      exists cur'. rewrite Hf, (regroup_marked _ _ _ Hm).
      pose proof (regroup_cons_not_nil seg rest) as Hnn.
      destruct (regroup (seg :: rest)) as [|g gs] eqn:Eg; [congruence|].
      repeat split; auto.
      cbn [removelast map]. now rewrite <- app_assoc.
    + destruct (IH cbs (cur ++ seg)) as (cur' & Hf & Hne & Hl); auto.
      { destruct cur; [congruence|discriminate]. }
      exists cur'. rewrite Hf, (regroup_unmarked _ _ _ Hm). now repeat split.
Qed.

Lemma regroup_length (seg : list str) (rest : list (list str)) :
  length (regroup (seg :: rest)) = S (length (filter starts_with_name rest)).
Proof.
  revert seg. induction rest as [|next rest IH]; intro seg; [reflexivity|].
  cbn [filter]. destruct (starts_with_name next) eqn:Hm.
  - rewrite (regroup_marked _ _ _ Hm). cbn [length]. now rewrite IH.
  - rewrite (regroup_unmarked _ _ _ Hm). apply IH.
Qed.

Lemma regroup_concat (segs : list (list str)) :
  concat (regroup segs) = concat segs.
Proof.
  induction segs as [|seg rest IH]; [reflexivity|].
  cbn [regroup concat]. rewrite <- IH.
  destruct (regroup rest) as [|g gs]; [reflexivity|].
  destruct (opens_block rest); cbn [concat]; [reflexivity|].
  now rewrite app_assoc.
Qed.

Lemma filter_truthy_Forall {A : Type} (l : list (list A)) :
  Forall (fun x => x <> []) (filter truthy l).
Proof.
  apply Forall_forall. intros x Hx. apply filter_In in Hx.
  destruct Hx as [_ Hx]. now destruct x.
Qed.

(** C6. When the first segment of an input is name-marked, the segmenter
    yields one block per name-marked segment, N blocks for N of them; the
    blocks are the segments regrouped so that every segment that is not
    name-marked is appended to the block before it, each joined by newlines,
    and no line is lost or moved. *)
Theorem segmenter_one_block_per_name_marker
  (input_text : str) (first : list str) (rest : list (list str)) :
  segments input_text = first :: rest ->
  starts_with_name first = true ->
  extract_customer_blocks input_text = map (join [nl]) (regroup (first :: rest))
  /\ length (extract_customer_blocks input_text)
     = length (filter starts_with_name (first :: rest))
  /\ concat (regroup (first :: rest)) = concat (first :: rest).
Proof.
  intros Hsegs Hfirst.
  assert (Hall : Forall (fun seg : list str => seg <> []) (first :: rest)).
  { rewrite <- Hsegs. apply filter_truthy_Forall. }
  inversion Hall as [|? ? Hf Hr]; subst.
  assert (Hblocks : extract_customer_blocks input_text
                    = map (join [nl]) (regroup (first :: rest))).
  { unfold extract_customer_blocks. cbv zeta.
    rewrite seg_loop_skips_empty. fold (segments input_text). rewrite Hsegs.
    cbn [fold_left]. unfold lines_step at 2. cbn [truthy].
    rewrite andb_false_r.
    destruct (seg_loop_regroup rest [] first Hf Hr) as (cur' & Hfold & Hne & Hlast).
    rewrite Hfold. cbn [app].
    assert (Ht : truthy cur' = true) by (destruct cur'; [congruence|reflexivity]).
    rewrite Ht.
    assert (Hg : map (join [nl]) (removelast (regroup (first :: rest)))
                   ++ [join [nl] cur']
                 = map (join [nl]) (regroup (first :: rest))).
    { rewrite <- Hlast.
      rewrite (app_removelast_last [] (regroup_cons_not_nil first rest)) at 3.
      now rewrite map_app. }
    rewrite Hg.
    pose proof (regroup_cons_not_nil first rest) as Hnn.
    destruct (regroup (first :: rest)); [congruence|reflexivity]. }
  split; [exact Hblocks|]. split; [|apply regroup_concat].
  rewrite Hblocks, length_map, regroup_length. cbn [filter].
  now rewrite Hfirst.
Qed.

(** An input of five segments, three of them name-marked (in three
    spellings), the first one among them: three blocks. *)
Lemma segmenter_one_block_per_name_marker_witness :
  let input_text :=
    join [nl] [u "name a"; u "x"; []; []; u "address b"; []; u " ";
               u "Nam: c"; u "  "; []; u "nothing"; []; u "NAME d"] in
  let first := [u "name a"; u "x"] in
  let rest := [[u "address b"]; [u "Nam: c"]; [u "nothing"]; [u "NAME d"]] in
  segments input_text = first :: rest
  /\ starts_with_name first = true
  /\ extract_customer_blocks input_text = map (join [nl]) (regroup (first :: rest))
  /\ length (extract_customer_blocks input_text)
     = length (filter starts_with_name (first :: rest))
  /\ concat (regroup (first :: rest)) = concat (first :: rest).
Proof.
  cbv zeta.
  split; [vm_compute; reflexivity|].
  split; [vm_compute; reflexivity|].
  apply segmenter_one_block_per_name_marker; vm_compute; reflexivity.
Defined.

Example segmenter_three_blocks :
  extract_customer_blocks
    (join [nl] [u "name a"; u "x"; []; []; u "address b"; []; u " ";
                u "Nam: c"; u "  "; []; u "nothing"; []; u "NAME d"])
  = [join [nl] [u "name a"; u "x"; u "address b"];
     join [nl] [u "Nam: c"; u "nothing"];
     u "NAME d"].
Proof. vm_compute. reflexivity. Qed.

(** ** Export *)

(** The loop of [main] sorts the records into the valid and the invalid
    ones, each kept in the order of the blocks. *)
Lemma run_loop (entries : list (nat * str)) :
  forall all_data invalid_entries,
    fold_left run_step entries (all_data, invalid_entries)
    = (all_data
         ++ filter is_valid (map (fun e => process_customer_block (snd e)) entries),
       invalid_entries
         ++ map (fun e => (fst e, process_customer_block (snd e),
                           validate_data (process_customer_block (snd e))))
              (filter (fun e => negb (is_valid (process_customer_block (snd e))))
                      entries)).
Proof.
  induction entries as [|[i block] es IH]; intros all_data invalid_entries.
  - simpl. now rewrite !app_nil_r.
  - cbn [fold_left map filter fst snd]. unfold run_step at 2. cbv zeta.
    replace (truthy (validate_data (process_customer_block block)))
      with (negb (is_valid (process_customer_block block)))
      by (unfold is_valid; apply negb_involutive).
    destruct (is_valid (process_customer_block block));
      cbn [negb]; rewrite IH; cbn [map fst snd]; now rewrite <- app_assoc.
Qed.

Lemma map_snd_enumerate1 {A : Type} (xs : list A) : map snd (enumerate1 xs) = xs.
Proof.
  unfold enumerate1. generalize 1.
  induction xs as [|x xs IH]; intro n; [reflexivity|].
  cbn [length seq combine map snd]. now rewrite IH.
Qed.

Lemma seq_strongly_sorted (len : nat) :
  forall start, StronglySorted lt (seq start len).
Proof.
  induction len as [|len IH]; intro start; cbn [seq]; constructor.
  - apply IH.
  - apply Forall_forall. intros x Hx. apply in_seq in Hx. lia.
Qed.

Lemma combine_seq_fst {A : Type} (xs : list A) (start : nat) :
  map fst (combine (seq start (length xs)) xs) = seq start (length xs).
Proof.
  revert start. induction xs as [|x xs IH]; intro start; [reflexivity|].
  cbn [length seq combine map fst]. now rewrite IH.
Qed.

Lemma combine_seq_snd {A : Type} (xs : list A) (start : nat) :
  map snd (combine (seq start (length xs)) xs) = xs.
Proof.
  revert start. induction xs as [|x xs IH]; intro start; [reflexivity|].
  cbn [length seq combine map snd]. now rewrite IH.
Qed.

Lemma filter_map_comm {A B : Type} (f : A -> B) (p : B -> bool) (l : list A) :
  filter p (map f l) = map f (filter (fun x => p (f x)) l).
Proof.
  induction l as [|x l IH]; [reflexivity|].
  cbn [map filter]. destruct (p (f x)); cbn [map]; now rewrite IH.
Qed.

(** C7. When a run exports rows, the exported records are the valid records
    of the input's blocks in the order of the blocks, their Invoice numbers
    are 1, 2, ..., K for the K valid records, strictly increasing, and every
    record is either exported or reported as invalid. *)
Theorem invoices_number_valid_records_in_order
  (user_input : str) (rows : list (nat * Customer))
  (invalid_entries : list (nat * Customer * list field)) :
  main user_input = Data_frame rows invalid_entries ->
  let records := map process_customer_block (extract_customer_blocks user_input) in
  map snd rows = filter is_valid records
  /\ map fst rows = seq 1 (length (filter is_valid records))
  /\ StronglySorted lt (map fst rows)
  /\ (forall k, k < length rows -> nth k (map fst rows) 0 = S k)
  /\ map (fun e => snd (fst e)) invalid_entries
     = filter (fun d => negb (is_valid d)) records
  /\ length rows + length invalid_entries = length records.
Proof.
  unfold main. cbv zeta.
  destruct (negb (truthy (strip user_input))); [discriminate|].
  rewrite run_loop. cbn [app].
  set (blocks := extract_customer_blocks user_input).
  assert (Hrec : map (fun e : nat * str => process_customer_block (snd e))
                     (enumerate1 blocks)
                 = map process_customer_block blocks).
  { rewrite <- (map_map snd process_customer_block). now rewrite map_snd_enumerate1. }
  rewrite Hrec.
  set (records := map process_customer_block blocks).
  destruct (negb (truthy (filter is_valid records))); [discriminate|].
  intro H. injection H as <- <-.
  assert (Hinv : map (fun e : nat * Customer * list field => snd (fst e))
                   (map (fun e : nat * str =>
                           (fst e, process_customer_block (snd e),
                            validate_data (process_customer_block (snd e))))
                        (filter (fun e : nat * str =>
                                   negb (is_valid (process_customer_block (snd e))))
                                (enumerate1 blocks)))
                 = filter (fun d => negb (is_valid d)) records).
  { rewrite map_map. cbn [fst snd].
    rewrite <- (filter_map_comm (fun e : nat * str => process_customer_block (snd e))
                                (fun d => negb (is_valid d))).
    now rewrite Hrec. }
  repeat split.
  - apply combine_seq_snd.
  - apply combine_seq_fst.
  - rewrite combine_seq_fst. apply seq_strongly_sorted.
  - intros k Hk. rewrite combine_seq_fst.
    rewrite length_combine, length_seq, Nat.min_id in Hk.
    rewrite seq_nth by exact Hk. reflexivity.
  - exact Hinv.
  - rewrite length_combine, length_seq, Nat.min_id.
    rewrite <- (length_map (fun e : nat * Customer * list field => snd (fst e))).
    rewrite Hinv. clear.
    induction records as [|d ds IH]; [reflexivity|].
    cbn [filter length]. destruct (is_valid d); cbn [negb length]; lia.
Qed.

(** Three customers, the second without a phone number: the first and the
    third are exported as Invoice 1 and 2, the second is reported. *)
Lemma invoices_number_valid_records_in_order_witness :
  let customer1 :=
    [u "নাম: Rahim"; u "মোবাইল: ০১৭১২৩৪৫৬৭৮"; u "জেলা: Dhaka"; u "অর্ডার";
     u "৫০০ টাকা শার্ট"] in
  let customer2 := [u "নাম: Karim"; u "জেলা: Khulna"; u "অর্ডার"; u "৩০০ টাকা"] in
  let customer3 :=
    [u "name: Salma"; u "phone 01812345678"; u "area: Sylhet"; u "order";
     u "2 pcs 750 টাকা"] in
  let user_input := join [nl] (customer1 ++ [[]] ++ customer2 ++ [[]] ++ customer3) in
  let r1 := process_customer_block (join [nl] customer1) in
  let r2 := process_customer_block (join [nl] customer2) in
  let r3 := process_customer_block (join [nl] customer3) in
  let rows := [(1, r1); (2, r3)] in
  let invalid_entries := [(2, r2, [F_Phone])] in
  let records := map process_customer_block (extract_customer_blocks user_input) in
  main user_input = Data_frame rows invalid_entries
  /\ map snd rows = filter is_valid records
  /\ map fst rows = seq 1 (length (filter is_valid records))
  /\ StronglySorted lt (map fst rows)
  /\ (forall k, k < length rows -> nth k (map fst rows) 0 = S k)
  /\ map (fun e => snd (fst e)) invalid_entries
     = filter (fun d => negb (is_valid d)) records
  /\ length rows + length invalid_entries = length records.
Proof.
  cbv zeta.
  split; [vm_compute; reflexivity|].
  apply invoices_number_valid_records_in_order.
  vm_compute. reflexivity.
Defined.

(** The scenario of the specification: one customer, every field found, no
    defect, exported as Invoice 1. *)
Example scenario_rahim :
  main (join [nl] [u "নাম: Rahim"; u "মোবাইল: ০১৭১২৩৪৫৬৭৮"; u "জেলা: Dhaka";
                   u "অর্ডার"; u "৫০০ টাকা শার্ট"])
  = Data_frame
      [(1, {| Name := u "Rahim";
              Address := u "জেলা: Dhaka";
              Phone := u "01712345678";
              Amount := Some (u "500");
              Note := u "৫০০ টাকা শার্ট";
              Delivery_Type := u "Home" |})]
      [].
Proof. vm_compute. reflexivity. Qed.


(** * Further properties of the pipeline *)

(** ** Whitespace and the other characters *)

Lemma ink_app (a b : str) : ink (a ++ b) = ink a ++ ink b.
Proof. apply filter_app. Qed.

Lemma ink_cons (c : cp) (s : str) :
  ink (c :: s) = (if isspace c then [] else [c]) ++ ink s.
Proof. unfold ink. cbn [filter]. now destruct (isspace c). Qed.

Lemma ink_rev (s : str) : ink (rev s) = rev (ink s).
Proof. apply filter_rev. Qed.

Lemma ink_lstrip (s : str) : ink (lstrip s) = ink s.
Proof.
  induction s as [|c s IH]; [reflexivity|].
  cbn [lstrip]. destruct (isspace c) eqn:E; [|reflexivity].
  now rewrite IH, ink_cons, E.
Qed.

Lemma ink_strip (s : str) : ink (strip s) = ink s.
Proof.
  unfold strip, rstrip.
  now rewrite ink_rev, ink_lstrip, ink_rev, rev_involutive, ink_lstrip.
Qed.

Lemma lstrip_blank (s : str) : ink s = [] -> lstrip s = [].
Proof.
  induction s as [|c s IH]; [reflexivity|].
  rewrite ink_cons. cbn [lstrip].
  destruct (isspace c); [exact IH|discriminate].
Qed.

(** A text strips to nothing exactly when it is all whitespace. *)
Lemma strip_nil_iff (s : str) : strip s = [] <-> ink s = [].
Proof.
  split; intro H.
  - rewrite <- ink_strip, H. reflexivity.
  - unfold strip, rstrip. now rewrite (lstrip_blank s H).
Qed.

Lemma isspace_nl : isspace nl = true.
Proof. reflexivity. Qed.

Lemma ink_join (ls : list str) : ink (join [nl] ls) = concat (map ink ls).
Proof.
  induction ls as [|x rest IH]; [reflexivity|].
  destruct rest as [|y rest].
  - simpl. now rewrite app_nil_r.
  - change (join [nl] (x :: y :: rest)) with (x ++ [nl] ++ join [nl] (y :: rest)).
    rewrite !ink_app, IH. reflexivity.
Qed.

Lemma split_not_nil (sep : cp) (s : str) : PyStr.split sep s <> [].
Proof.
  destruct s as [|c s]; [discriminate|].
  cbn [PyStr.split]. destruct (N.eqb c sep); [discriminate|].
  destruct (PyStr.split sep s); discriminate.
Qed.

Lemma ink_split_nl (s : str) : concat (map ink (PyStr.split nl s)) = ink s.
Proof.
  induction s as [|c s IH]; [reflexivity|].
  cbn [PyStr.split]. destruct (N.eqb_spec c nl) as [->|Hc].
  - cbn [map concat]. rewrite IH, ink_cons, isspace_nl. reflexivity.
  - destruct (PyStr.split nl s) as [|x xs] eqn:E.
    + now apply split_not_nil in E.
    + cbn [map concat] in *. rewrite !ink_cons, <- IH, <- app_assoc. reflexivity.
Qed.

Lemma ink_clean_lines (block : str) :
  concat (map ink (clean_lines block)) = ink block.
Proof.
  unfold clean_lines. rewrite <- ink_split_nl.
  induction (PyStr.split nl block) as [|l ls IH]; [reflexivity|].
  cbn [filter map concat]. destruct (strip l) as [|c t] eqn:E.
  - cbn [truthy]. rewrite IH.
    assert (H : ink l = []) by (apply strip_nil_iff; exact E).
    now rewrite H.
  - cbn [truthy map concat]. rewrite IH, E, <- E, ink_strip. reflexivity.
Qed.

(** *** What a match is made of *)

Lemma Lang_chars (P : cp -> Prop) (r : re) (w : str) :
  re_chars P r -> Lang r w -> Forall P w.
Proof.
  intros Hr H. induction H; cbn [re_chars] in Hr; auto.
  - apply Forall_app. destruct Hr. auto.
  - destruct Hr. auto.
  - destruct Hr. auto.
  - apply Forall_app. split; auto.
Qed.

Lemma blank_Forall (w : str) : Forall (fun c => isspace c = true) w -> ink w = [].
Proof.
  induction 1 as [|c w Hc _ IH]; [reflexivity|].
  now rewrite ink_cons, Hc.
Qed.

(** A match found by the search is a word of the pattern, and the input is
    what was scanned over, then the match, then the rest. *)
Lemma search_from_match (r : re) :
  forall s bol pre m,
    search_from r bol pre s = Some m ->
    Lang r (m_text m)
    /\ exists s1, s = s1 ++ m_text m ++ m_post m /\ m_pre m = rev pre ++ s1.
Proof.
  intros s bol pre m H. split; [|now apply (ReFacts.search_from_text r s bol pre)].
  assert (Hhere : forall bol s s' g,
             match_here r bol s = Some (s', g) ->
             Lang r (firstn (length s - length s') s)).
  { intros b0 t t' g E. apply ReFacts.bt_sound in E.
    destruct E as (w & s0 & b & g0 & -> & Hw & Hk & _).
    injection Hk as <- _. now rewrite ReFacts.firstn_consumed. }
  revert bol pre H.
  induction s as [|c s IH]; intros bol pre H; simpl in H.
  - destruct (match_here r bol []) as [[s' g]|] eqn:E; [|discriminate].
    injection H as <-. apply (Hhere _ _ _ _ E).
  - destruct (match_here r bol (c :: s)) as [[s' g]|] eqn:E.
    + injection H as <-. apply (Hhere _ _ _ _ E).
    + now apply IH in H.
Qed.

(** Replacing whitespace matches by whitespace leaves the other characters
    alone. *)
Lemma ink_sub_from (r : re) (repl : str) :
  re_chars (fun c => isspace c = true) r ->
  ink repl = [] ->
  forall fuel bol s, ink (sub_from fuel r repl bol s) = ink s.
Proof.
  intros Hr Hrepl. induction fuel as [|f IH]; intros bol s; [reflexivity|].
  cbn [sub_from].
  destruct (search_from r bol [] s) as [m|] eqn:E; [|reflexivity].
  apply search_from_match in E. destruct E as (Hw & s1 & Hs & Hpre).
  apply (Lang_chars _ _ _ Hr) in Hw. apply blank_Forall in Hw.
  cbn [rev app] in Hpre. rewrite Hpre.
  rewrite Hs at 1. rewrite !ink_app, Hrepl, Hw. cbn [app]. f_equal.
  destruct (m_text m) as [|t ts]; destruct (m_post m) as [|c rest];
    try reflexivity; try apply IH.
  now rewrite !ink_cons, IH.
Qed.

Lemma ink_split_from (r : re) :
  re_chars (fun c => isspace c = true) r ->
  forall fuel bol s, concat (map ink (split_from fuel r bol s)) = ink s.
Proof.
  intros Hr. induction fuel as [|f IH]; intros bol s;
    [simpl; apply app_nil_r|].
  cbn [split_from].
  destruct (search_from r bol [] s) as [m|] eqn:E; [|simpl; apply app_nil_r].
  apply search_from_match in E. destruct E as (Hw & s1 & Hs & Hpre).
  apply (Lang_chars _ _ _ Hr) in Hw. apply blank_Forall in Hw.
  destruct (m_text m) as [|t ts] eqn:Et; [simpl; apply app_nil_r|].
  cbn [map concat]. rewrite IH. cbn [rev app] in Hpre. rewrite Hpre.
  rewrite Hs at 1. now rewrite !ink_app, Hw.
Qed.

Lemma re_chars_lit (P : cp -> Prop) (l : str) : Forall P l -> re_chars P (Lit l).
Proof.
  induction 1 as [|c l Hc _ IH]; [exact I|].
  cbn [Lit fold_right re_chars]. split; [|exact IH].
  unfold Lit1. cbn [re_chars]. intros x Hx. apply N.eqb_eq in Hx. now subst x.
Qed.

Lemma re_chars_lit1 (P : cp -> Prop) (c : cp) : P c -> re_chars P (Lit1 c).
Proof.
  intros Hc x Hx. apply N.eqb_eq in Hx. now subst x.
Qed.

Lemma blank_lines_pattern_blank :
  re_chars (fun c => isspace c = true) blank_lines_pattern.
Proof.
  unfold blank_lines_pattern, Plus, space. cbn [re_chars].
  repeat split; try (apply re_chars_lit1; reflexivity); auto.
Qed.

Lemma separator_pattern_blank :
  re_chars (fun c => isspace c = true) separator_pattern.
Proof.
  unfold separator_pattern, space. cbn [re_chars].
  repeat split; try (apply re_chars_lit1; reflexivity); auto.
Qed.

Lemma ink_normalize_text (input_text : str) :
  ink (normalize_text input_text) = ink input_text.
Proof.
  unfold normalize_text, sub. cbv zeta.
  rewrite (ink_sub_from _ _ blank_lines_pattern_blank) by reflexivity.
  rewrite (ink_sub_from (Lit1 cr)) by (try reflexivity; apply re_chars_lit1; reflexivity).
  rewrite (ink_sub_from (Lit [cr; nl])); [reflexivity| |reflexivity].
  apply re_chars_lit. repeat constructor.
Qed.

Lemma ink_split_blocks (input_text : str) :
  concat (map ink (split_blocks input_text)) = ink input_text.
Proof.
  unfold split_blocks, Re.split.
  now rewrite (ink_split_from _ separator_pattern_blank), ink_strip, ink_normalize_text.
Qed.

Lemma ink_segments (input_text : str) :
  concat (map ink (concat (segments input_text))) = ink input_text.
Proof.
  unfold segments. rewrite <- ink_split_blocks.
  induction (split_blocks input_text) as [|b bs IH]; [reflexivity|].
  cbn [map filter concat]. rewrite <- IH, <- (ink_clean_lines b).
  destruct (clean_lines b) as [|l ls]; cbn [truthy]; [reflexivity|].
  cbn [concat]. now rewrite map_app, concat_app.
Qed.

(** ** The segmenter on every input *)

(** The blocks are the regrouped segments, whatever the first segment is;
    the whole-input fallback of the last statement never has to step in. *)
Lemma extract_customer_blocks_regroup (input_text : str) :
  extract_customer_blocks input_text
  = map (join [nl]) (regroup (segments input_text)).
Proof.
  unfold extract_customer_blocks. cbv zeta.
  rewrite seg_loop_skips_empty. fold (segments input_text).
  pose proof (ink_segments input_text) as Hink.
  pose proof (filter_truthy_Forall (map clean_lines (split_blocks input_text))) as Hall.
  fold (segments input_text) in Hall.
  destruct (segments input_text) as [|first rest].
  - cbn [fold_left truthy negb andb map regroup].
    cbn [concat map] in Hink. symmetry in Hink. apply strip_nil_iff in Hink.
    now rewrite Hink.
  - inversion Hall as [|? ? Hf Hr]; subst.
    cbn [fold_left]. unfold lines_step at 2. cbn [truthy].
    rewrite andb_false_r.
    destruct (seg_loop_regroup rest [] first Hf Hr) as (cur' & Hfold & Hne & Hlast).
    rewrite Hfold. cbn [app].
    assert (Ht : truthy cur' = true) by (destruct cur'; [congruence|reflexivity]).
    rewrite Ht.
    assert (Hg : map (join [nl]) (removelast (regroup (first :: rest)))
                   ++ [join [nl] cur']
                 = map (join [nl]) (regroup (first :: rest))).
    { rewrite <- Hlast.
      rewrite (app_removelast_last [] (regroup_cons_not_nil first rest)) at 3.
      now rewrite map_app. }
    rewrite Hg.
    pose proof (regroup_cons_not_nil first rest) as Hnn.
    destruct (regroup (first :: rest)); [congruence|reflexivity].
Qed.

Lemma regroup_nil_iff (segs : list (list str)) : regroup segs = [] <-> segs = [].
Proof.
  split; intro H; [|now subst].
  destruct segs as [|seg rest]; [reflexivity|].
  now apply regroup_cons_not_nil in H.
Qed.

(** *** Lines, stripping and joining *)

Lemma lstrip_head (s : str) :
  match lstrip s with c :: _ => isspace c = false | [] => True end.
Proof.
  induction s as [|c s IH]; [exact I|].
  cbn [lstrip]. destruct (isspace c) eqn:E; [exact IH|exact E].
Qed.

Lemma lstrip_suffix (s : str) : exists pre, s = pre ++ lstrip s.
Proof.
  induction s as [|c s [pre IH]]; [now exists []|].
  cbn [lstrip]. destruct (isspace c).
  - exists (c :: pre). simpl. now f_equal.
  - now exists [].
Qed.

Lemma strip_trimmed (s : str) : trimmed (strip s).
Proof.
  unfold strip, rstrip, trimmed. rewrite rev_involutive.
  split; [|apply lstrip_head].
  pose proof (lstrip_head s) as Hh.
  destruct (lstrip_suffix (rev (lstrip s))) as [pre Hpre].
  apply (f_equal (@rev cp)) in Hpre. rewrite rev_involutive, rev_app_distr in Hpre.
  destruct (rev (lstrip (rev (lstrip s)))) as [|c t]; [exact I|].
  rewrite Hpre in Hh. exact Hh.
Qed.

Lemma trimmed_strip (s : str) : trimmed s -> strip s = s.
Proof.
  intros [Hh Ht]. unfold strip, rstrip.
  assert (Hl : forall t, match t with c :: _ => isspace c = false | [] => True end ->
                         lstrip t = t).
  { intros [|c t] H; [reflexivity|]. cbn [lstrip]. now rewrite H. }
  rewrite (Hl s Hh), (Hl (rev s) Ht). apply rev_involutive.
Qed.

Lemma In_lstrip (c : cp) (s : str) : In c (lstrip s) -> In c s.
Proof.
  destruct (lstrip_suffix s) as [pre Hpre]. intro H.
  rewrite Hpre. apply in_or_app. now right.
Qed.

Lemma In_strip (c : cp) (s : str) : In c (strip s) -> In c s.
Proof.
  unfold strip, rstrip. intro H.
  apply In_lstrip. apply in_rev. apply In_lstrip. now apply in_rev in H.
Qed.

Lemma split_no_sep (sep : cp) (s : str) :
  Forall (fun l => ~ In sep l) (PyStr.split sep s).
Proof.
  induction s as [|c s IH]; [repeat constructor; auto|].
  cbn [PyStr.split]. destruct (N.eqb_spec c sep) as [->|Hc].
  - constructor; auto.
  - destruct (PyStr.split sep s) as [|x xs]; [repeat constructor; simpl; intuition|].
    inversion IH as [|? ? Hx Hxs]; subst. constructor; [|exact Hxs].
    simpl. intuition.
Qed.

Lemma split_one_line (sep : cp) (x : str) : ~ In sep x -> PyStr.split sep x = [x].
Proof.
  induction x as [|c x IH]; intro H; [reflexivity|].
  cbn [PyStr.split]. destruct (N.eqb_spec c sep) as [->|Hc].
  - exfalso. apply H. now left.
  - rewrite IH; [reflexivity|]. intro Hin. apply H. now right.
Qed.

Lemma split_first_line (sep : cp) (x t : str) :
  ~ In sep x -> PyStr.split sep (x ++ sep :: t) = x :: PyStr.split sep t.
Proof.
  induction x as [|c x IH]; intro H.
  - cbn [app PyStr.split]. now rewrite N.eqb_refl.
  - cbn [app PyStr.split]. destruct (N.eqb_spec c sep) as [->|Hc].
    + exfalso. apply H. now left.
    + rewrite IH; [reflexivity|]. intro Hin. apply H. now right.
Qed.

(** Splitting what was joined gives the lines back. *)
Lemma split_join (ls : list str) :
  ls <> [] -> Forall (fun l => ~ In nl l) ls ->
  PyStr.split nl (join [nl] ls) = ls.
Proof.
  induction ls as [|x rest IH]; intros Hne Hall; [congruence|].
  inversion Hall as [|? ? Hx Hrest]; subst.
  destruct rest as [|y rest].
  - apply split_one_line. exact Hx.
  - change (join [nl] (x :: y :: rest)) with (x ++ nl :: join [nl] (y :: rest)).
    rewrite split_first_line by exact Hx.
    f_equal. apply IH; [discriminate|exact Hrest].
Qed.

Lemma join_starts_with_first (x : str) (rest : list str) :
  exists tl, join [nl] (x :: rest) = x ++ tl.
Proof.
  destruct rest as [|y rest].
  - exists []. simpl. now rewrite app_nil_r.
  - now exists ([nl] ++ join [nl] (y :: rest)).
Qed.

Lemma join_ends_with_last (ls : list str) :
  ls <> [] -> exists init, join [nl] ls = init ++ last ls [].
Proof.
  induction ls as [|x rest IH]; intro Hne; [congruence|].
  destruct rest as [|y rest].
  - now exists [].
  - destruct IH as [init Hinit]; [discriminate|].
    exists (x ++ [nl] ++ init).
    change (join [nl] (x :: y :: rest)) with (x ++ [nl] ++ join [nl] (y :: rest)).
    change (last (x :: y :: rest) []) with (last (y :: rest) []).
    rewrite Hinit. now rewrite <- !app_assoc.
Qed.

Lemma trimmed_join (ls : list str) :
  ls <> [] -> Forall clean_line ls -> trimmed (join [nl] ls).
Proof.
  intros Hne Hall. split.
  - destruct ls as [|x rest]; [congruence|].
    inversion Hall as [|? ? [Hx [[Hh _] _]] _]; subst.
    destruct (join_starts_with_first x rest) as [tl ->].
    destruct x as [|c x]; [congruence|]. exact Hh.
  - destruct (join_ends_with_last ls Hne) as [init ->].
    assert (Hl : clean_line (last ls [])).
    { apply last_Forall; assumption. }
    destruct Hl as [Hx [[_ Ht] _]].
    rewrite rev_app_distr.
    destruct (rev (last ls [])) as [|c t] eqn:E.
    + apply (f_equal (@rev cp)) in E. rewrite rev_involutive in E. now rewrite E in Hx.
    + exact Ht.
Qed.

(** A block built from clean lines is read back line by line. *)
Lemma block_lines_join (ls : list str) :
  ls <> [] -> Forall clean_line ls -> block_lines (join [nl] ls) = ls.
Proof.
  intros Hne Hall. unfold block_lines.
  rewrite trimmed_strip by now apply trimmed_join.
  apply split_join; [exact Hne|].
  eapply Forall_impl; [|exact Hall]. now intros l [_ [_ H]].
Qed.

Lemma clean_lines_clean (block : str) : Forall clean_line (clean_lines block).
Proof.
  unfold clean_lines. apply Forall_forall. intros l Hl.
  apply in_map_iff in Hl. destruct Hl as (raw & <- & Hraw).
  apply filter_In in Hraw. destruct Hraw as [Hin Ht].
  repeat split.
  - intro H. now rewrite H in Ht.
  - apply strip_trimmed.
  - apply strip_trimmed.
  - intro Hnl. apply In_strip in Hnl.
    pose proof (split_no_sep nl block) as Hs.
    rewrite Forall_forall in Hs. now apply (Hs raw Hin).
Qed.

Lemma segments_clean (input_text : str) :
  Forall (fun seg => seg <> [] /\ Forall clean_line seg) (segments input_text).
Proof.
  unfold segments. apply Forall_forall. intros seg Hseg.
  apply filter_In in Hseg. destruct Hseg as [Hin Ht].
  split; [now destruct seg|].
  apply in_map_iff in Hin. destruct Hin as (b & <- & _). apply clean_lines_clean.
Qed.

Lemma regroup_clean (segs : list (list str)) :
  Forall (fun seg => seg <> [] /\ Forall clean_line seg) segs ->
  Forall (fun g => g <> [] /\ Forall clean_line g) (regroup segs).
Proof.
  induction 1 as [|seg rest [Hne Hc] _ IH]; [constructor|].
  cbn [regroup]. destruct (regroup rest) as [|g gs].
  - repeat constructor; assumption.
  - inversion IH as [|? ? [Hg Hgc] Hgs]; subst.
    destruct (opens_block rest).
    + constructor; [now split|exact IH].
    + constructor; [|exact Hgs]. split.
      * destruct seg; [congruence|discriminate].
      * apply Forall_app. now split.
Qed.

Lemma concat_map_ink_concat (groups : list (list str)) :
  concat (map ink (concat groups))
  = concat (map (fun g => ink (join [nl] g)) groups).
Proof.
  induction groups as [|g gs IH]; [reflexivity|].
  cbn [concat map]. now rewrite map_app, concat_app, IH, ink_join.
Qed.

Lemma clean_line_has_ink (l : str) : clean_line l -> ink l <> [].
Proof.
  intros [Hne [[Hh _] _]]. destruct l as [|c l]; [congruence|].
  rewrite ink_cons, Hh. discriminate.
Qed.

Lemma segments_nil_iff (input_text : str) :
  segments input_text = [] <-> strip input_text = [].
Proof.
  rewrite strip_nil_iff, <- ink_segments. split; intro H.
  - now rewrite H.
  - pose proof (segments_clean input_text) as Hc.
    destruct (segments input_text) as [|seg rest]; [reflexivity|exfalso].
    inversion Hc as [|? ? [Hne Hl] _]; subst.
    destruct seg as [|l seg]; [congruence|].
    inversion Hl as [|? ? Hcl _]; subst.
    apply clean_line_has_ink in Hcl.
    cbn [concat map app] in H.
    destruct (ink l); [congruence|discriminate].
Qed.

(** X1. The segmenter changes whitespace only: the characters of the blocks
    that are not whitespace are, in order, those of the input. Nothing the
    operator typed is dropped, doubled or moved to another place. *)
Theorem segmenter_keeps_every_character (input_text : str) :
  concat (map ink (extract_customer_blocks input_text)) = ink input_text.
Proof.
  rewrite extract_customer_blocks_regroup, map_map.
  rewrite <- concat_map_ink_concat, regroup_concat.
  apply ink_segments.
Qed.

Lemma no_block_iff_blank (input_text : str) :
  extract_customer_blocks input_text = [] <-> strip input_text = [].
Proof.
  rewrite extract_customer_blocks_regroup, <- segments_nil_iff, <- regroup_nil_iff.
  split; intro H; [|now rewrite H].
  now destruct (regroup (segments input_text)).
Qed.

(** X2. The segmenter yields no block exactly when the input is blank
    (empty after [strip]). *)
Theorem segmenter_no_block_iff_blank (input_text : str) :
  extract_customer_blocks input_text = [] <-> strip input_text = [].
Proof. exact (no_block_iff_blank input_text). Qed.

(** X3. On every input the blocks are the regrouped segments: the first
    segment opens a block whether it is name-marked or not, and every later
    name-marked segment opens one more. The fallback that would take the
    whole input as one block never changes the result. *)
Theorem segmenter_blocks_on_every_input (input_text : str) :
  extract_customer_blocks input_text
  = map (join [nl]) (regroup (segments input_text))
  /\ length (extract_customer_blocks input_text)
     = match segments input_text with
       | [] => 0
       | _ :: rest => S (length (filter starts_with_name rest))
       end.
Proof.
  split; [apply extract_customer_blocks_regroup|].
  rewrite extract_customer_blocks_regroup, length_map.
  destruct (segments input_text) as [|first rest]; [reflexivity|].
  apply regroup_length.
Qed.

Lemma blocks_read_back (input_text : str) :
  map block_lines (extract_customer_blocks input_text)
  = regroup (segments input_text).
Proof.
  rewrite extract_customer_blocks_regroup, map_map.
  pose proof (regroup_clean _ (segments_clean input_text)) as Hc.
  induction Hc as [|g gs [Hne Hg] _ IH]; [reflexivity|].
  cbn [map]. now rewrite IH, block_lines_join.
Qed.

(** X4. The segmenter and the extractor agree on the lines of a block: the
    lines [process_customer_block] gets by stripping a block and splitting it
    at newlines are exactly the lines the segmenter collected for it, and
    each of them is non-empty, without a newline, and without whitespace at
    either end. *)
Theorem extractor_reads_the_segmenter_lines (input_text : str) :
  map block_lines (extract_customer_blocks input_text)
  = regroup (segments input_text)
  /\ Forall (fun block => block_lines block <> []
                          /\ Forall clean_line (block_lines block))
            (extract_customer_blocks input_text).
Proof.
  split; [apply blocks_read_back|].
  pose proof (regroup_clean _ (segments_clean input_text)) as Hc.
  rewrite <- blocks_read_back in Hc.
  now apply Forall_map in Hc.
Qed.

(** ** A run, from the input to its outcome *)

(** [main] with its loop replaced by what the loop computes. *)
Lemma main_unfold (user_input : str) :
  main user_input
  = if negb (truthy (strip user_input)) then No_input_provided
    else
      let blocks := extract_customer_blocks user_input in
      let valid := filter is_valid (map process_customer_block blocks) in
      let invalid_entries :=
        map (fun e => (fst e, process_customer_block (snd e),
                       validate_data (process_customer_block (snd e))))
            (filter (fun e => negb (is_valid (process_customer_block (snd e))))
                    (enumerate1 blocks)) in
      if negb (truthy valid) then No_valid_data invalid_entries
      else Data_frame (combine (seq 1 (length valid)) valid) invalid_entries.
Proof.
  unfold main. cbv zeta.
  destruct (negb (truthy (strip user_input))); [reflexivity|].
  rewrite run_loop. cbn [app].
  rewrite <- (map_map snd process_customer_block), map_snd_enumerate1.
  reflexivity.
Qed.

Lemma length_filter_split {A : Type} (p : A -> bool) (l : list A) :
  length (filter p l) + length (filter (fun x => negb (p x)) l) = length l.
Proof.
  induction l as [|x l IH]; [reflexivity|].
  cbn [filter length]. destruct (p x); cbn [negb length]; lia.
Qed.

Lemma length_enumerate1 {A : Type} (xs : list A) :
  length (enumerate1 xs) = length xs.
Proof. unfold enumerate1. rewrite length_combine, length_seq. apply Nat.min_id. Qed.

Lemma length_reported (blocks : list str) :
  length (filter (fun e : nat * str => negb (is_valid (process_customer_block (snd e))))
                 (enumerate1 blocks))
  = length (filter (fun d => negb (is_valid d)) (map process_customer_block blocks)).
Proof.
  rewrite <- (map_snd_enumerate1 blocks) at 2.
  rewrite map_map, filter_map_comm, length_map. reflexivity.
Qed.

(** X5. What holds at each of the three points [main] can reach before the
    export. It returns with "No input provided" for a blank input and for no
    other; where it returns with "No valid data", blocks were found, at least
    one, and every one of them is reported as skipped; where it builds the
    data frame, the frame has at least one row and every block is either a
    row of it or reported as skipped. (The export that follows the frame, and
    the errors it can end in, are not part of this.) *)
Theorem outcomes_before_export (user_input : str) :
  match main user_input with
  | No_input_provided =>
      strip user_input = [] /\ extract_customer_blocks user_input = []
  | No_valid_data invalid_entries =>
      strip user_input <> [] /\ invalid_entries <> []
      /\ length invalid_entries = length (extract_customer_blocks user_input)
  | Data_frame rows invalid_entries =>
      strip user_input <> [] /\ rows <> []
      /\ length rows + length invalid_entries
         = length (extract_customer_blocks user_input)
  end.
Proof.
  rewrite main_unfold. cbv zeta.
  destruct (strip user_input) as [|c t] eqn:Hs; cbn [truthy negb].
  - split; [reflexivity|]. now apply no_block_iff_blank.
  - set (blocks := extract_customer_blocks user_input).
    assert (Hb : blocks <> []).
    { intro H. apply no_block_iff_blank in H. congruence. }
    pose proof (length_filter_split is_valid (map process_customer_block blocks)) as Hl.
    rewrite length_map in Hl.
    destruct (filter is_valid (map process_customer_block blocks)) as [|r rs] eqn:Hv;
      cbn [truthy negb].
    + rewrite length_map, length_reported. cbn [length] in Hl.
      repeat split; [discriminate| |exact Hl].
      intro H. apply map_eq_nil in H.
      apply (f_equal (@length _)) in H. rewrite length_reported in H.
      cbn [length] in H. rewrite H in Hl. cbn [Nat.add] in Hl.
      destruct blocks; [congruence|discriminate].
    + rewrite length_combine, length_seq, Nat.min_id, length_map, length_reported.
      repeat split; [discriminate|discriminate|exact Hl].
Qed.

Lemma phone_of_block_shape (block_text : str) :
  Phone (process_customer_block block_text) = []
  \/ phone_shape (Phone (process_customer_block block_text)).
Proof.
  rewrite process_customer_block_phone.
  apply phone_fold_shape. now left.
Qed.

Lemma amount_of_block (block_text : str) (a : str) :
  Amount (process_customer_block block_text) = Some a ->
  a <> [] ->
  forallb isdecimal a = true
  /\ Note (process_customer_block block_text) <> []
  /\ extract_amount (Note (process_customer_block block_text)) = Some a.
Proof.
  intros Ha Hne.
  destruct (note_and_amount_of_block block_text) as [Hn Hm].
  destruct (note_candidates (block_lines block_text)) as [|n ns] eqn:E.
  - cbn [map last] in Hm. rewrite Hm in Ha. injection Ha as <-. congruence.
  - assert (Hnn : n :: ns <> []) by discriminate.
    rewrite (last_map_nonempty extract_amount _ [] _ Hnn), <- Hn in Hm.
    pose proof (note_candidates_truthy (block_lines block_text)) as HF.
    rewrite E in HF.
    assert (Ht : truthy (last (n :: ns) []) = true)
      by exact (last_Forall _ _ [] HF Hnn).
    rewrite <- Hn in Ht. rewrite Hm in Ha.
    repeat split.
    + destruct (extract_amount_shape (Note (process_customer_block block_text)))
        as [H|(a' & H1 & _ & H3 & _)]; congruence.
    + intro H0. rewrite H0 in Ht. discriminate.
    + exact Ha.
Qed.

Lemma valid_record_fields (block_text : str) :
  is_valid (process_customer_block block_text) = true ->
  let r := process_customer_block block_text in
  Name r <> [] /\ Address r <> [] /\ Note r <> []
  /\ phone_shape (Phone r)
  /\ exists a, Amount r = Some a /\ a <> [] /\ forallb isdecimal a = true
               /\ extract_amount (Note r) = Some a.
Proof.
  intro Hv. cbv zeta. unfold is_valid in Hv.
  assert (Hnil : validate_data (process_customer_block block_text) = []).
  { destruct (validate_data _); [reflexivity|discriminate]. }
  apply validate_data_nil_iff in Hnil.
  destruct Hnil as (Hname & Hphone & Haddr & a & Ha & Hane).
  destruct (amount_of_block block_text a Ha Hane) as (Hd & Hnote & Hex).
  assert (Hshape : phone_shape (Phone (process_customer_block block_text))).
  { destruct (phone_of_block_shape block_text) as [H|H]; [|exact H].
    rewrite H in Hphone. discriminate. }
  split; [exact Hname|]. split; [exact Haddr|]. split; [exact Hnote|].
  split; [exact Hshape|]. now exists a.
Qed.

(** X6. Every row of the data frame is complete: its Name, Address and Note
    are not empty, its Phone is eleven digit characters (none of them a
    Bengali digit), and its Amount is a non-empty string of digits, the one
    [extract_amount] finds in the Note, and never [None]. *)
Theorem exported_rows_are_complete
  (user_input : str) (rows : list (nat * Customer))
  (invalid_entries : list (nat * Customer * list field)) :
  main user_input = Data_frame rows invalid_entries ->
  Forall (fun row =>
            let r := snd row in
            Name r <> [] /\ Address r <> [] /\ Note r <> []
            /\ phone_shape (Phone r)
            /\ exists a, Amount r = Some a /\ a <> []
                         /\ forallb isdecimal a = true
                         /\ extract_amount (Note r) = Some a)
         rows.
Proof.
  rewrite main_unfold. cbv zeta.
  destruct (negb (truthy (strip user_input))); [discriminate|].
  destruct (negb (truthy (filter is_valid _))); [discriminate|].
  intro H. injection H as <- _.
  apply Forall_forall. intros [i r] Hin.
  apply in_combine_r in Hin. apply filter_In in Hin. destruct Hin as [Hin Hv].
  apply in_map_iff in Hin. destruct Hin as (b & <- & _).
  cbn [snd]. now apply valid_record_fields.
Qed.

(** Two customers; the first one lacks an address line and is skipped. *)
Lemma exported_rows_are_complete_witness :
  let user_input :=
    join [nl] [u "name: Salma"; u "phone 01812345678"; u "order"; u "750 টাকা";
               []; u "নাম: Rahim"; u "মোবাইল: ০১৭১২৩৪৫৬৭৮"; u "জেলা: Dhaka";
               u "অর্ডার"; u "৫০০ টাকা শার্ট"] in
  let rows :=
    [(1, process_customer_block
           (join [nl] [u "নাম: Rahim"; u "মোবাইল: ০১৭১২৩৪৫৬৭৮"; u "জেলা: Dhaka";
                       u "অর্ডার"; u "৫০০ টাকা শার্ট"]))] in
  let invalid_entries :=
    [(1, process_customer_block
           (join [nl] [u "name: Salma"; u "phone 01812345678"; u "order";
                       u "750 টাকা"]),
      [F_Address])] in
  main user_input = Data_frame rows invalid_entries
  /\ Forall (fun row =>
               let r := snd row in
               Name r <> [] /\ Address r <> [] /\ Note r <> []
               /\ phone_shape (Phone r)
               /\ exists a, Amount r = Some a /\ a <> []
                            /\ forallb isdecimal a = true
                            /\ extract_amount (Note r) = Some a)
            rows.
Proof.
  intros user_input rows invalid_entries.
  split; [vm_compute; reflexivity|].
  apply (exported_rows_are_complete user_input rows invalid_entries).
  vm_compute. reflexivity.
Defined.

Lemma In_combine_seq {A : Type} (xs : list A) :
  forall start i x,
    In (i, x) (combine (seq start (length xs)) xs) ->
    start <= i /\ nth_error xs (i - start) = Some x.
Proof.
  induction xs as [|y ys IH]; intros start i x Hin; [contradiction|].
  cbn [length seq combine] in Hin. destruct Hin as [Heq|Hin].
  - injection Heq as <- <-. split; [lia|]. now rewrite Nat.sub_diag.
  - apply IH in Hin. destruct Hin as [Hle Hnth]. split; [lia|].
    replace (i - start) with (S (i - S start)) by lia. exact Hnth.
Qed.

Lemma StronglySorted_map_filter {A B : Type} (R : B -> B -> Prop) (f : A -> B)
  (q : A -> bool) (l : list A) :
  StronglySorted R (map f l) -> StronglySorted R (map f (filter q l)).
Proof.
  induction l as [|x l IH]; intro H; [constructor|].
  cbn [map] in H. apply StronglySorted_inv in H. destruct H as [Hs Hall].
  cbn [filter]. destruct (q x); [|now apply IH].
  cbn [map]. constructor; [now apply IH|].
  apply Forall_forall. intros y Hy. rewrite Forall_forall in Hall. apply Hall.
  apply in_map_iff in Hy. destruct Hy as (z & <- & Hz).
  apply filter_In in Hz. apply in_map. tauto.
Qed.

(** X7. The entries reported as skipped point at their blocks: an entry
    [(i, data, missing)] has the 1-based position [i] of a block of the
    input, [data] is the record extracted from that block, [missing] is what
    the validator returns for it and is not empty; the entries come in
    increasing order of [i]. *)
Theorem reported_entries_point_at_blocks (user_input : str) :
  let blocks := extract_customer_blocks user_input in
  let invalid_entries := reported (main user_input) in
  StronglySorted lt (map (fun e => fst (fst e)) invalid_entries)
  /\ Forall (fun e =>
               let i := fst (fst e) in
               1 <= i
               /\ exists block,
                   nth_error blocks (i - 1) = Some block
                   /\ snd (fst e) = process_customer_block block
                   /\ snd e = validate_data (process_customer_block block)
                   /\ snd e <> [])
            invalid_entries.
Proof.
  cbv zeta. rewrite main_unfold. cbv zeta.
  set (blocks := extract_customer_blocks user_input).
  set (q := fun e : nat * str => negb (is_valid (process_customer_block (snd e)))).
  set (f := fun e : nat * str =>
              (fst e, process_customer_block (snd e),
               validate_data (process_customer_block (snd e)))).
  assert (H : StronglySorted lt
                (map (fun e => fst (fst e)) (map f (filter q (enumerate1 blocks))))
              /\ Forall (fun e =>
                           1 <= fst (fst e)
                           /\ exists block,
                               nth_error blocks (fst (fst e) - 1) = Some block
                               /\ snd (fst e) = process_customer_block block
                               /\ snd e = validate_data (process_customer_block block)
                               /\ snd e <> [])
                        (map f (filter q (enumerate1 blocks)))).
  { split.
    - rewrite map_map. cbn [f fst].
      apply StronglySorted_map_filter.
      unfold enumerate1. rewrite combine_seq_fst. apply seq_strongly_sorted.
    - apply Forall_forall. intros e He.
      apply in_map_iff in He. destruct He as ([i b] & <- & Hin).
      apply filter_In in Hin. destruct Hin as [Hin Hq].
      apply In_combine_seq in Hin. destruct Hin as [Hle Hnth].
      cbn [f fst snd]. split; [exact Hle|].
      exists b. repeat split; [exact Hnth|].
      unfold q, is_valid in Hq. cbn [snd] in Hq.
      intro H0. rewrite H0 in Hq. discriminate. }
  destruct (negb (truthy (strip user_input)));
    [split; constructor|].
  destruct (negb (truthy (filter is_valid _))); exact H.
Qed.

(** ** Why a block is rejected *)

Lemma In_validate_data (data : Customer) (f : field) :
  In f (validate_data data) <-> is_defect data f = true.
Proof.
  assert (H : validate_data data
              = filter (is_defect data) [F_Name; F_Phone; F_Address; F_Amount]).
  { unfold validate_data, is_defect, field_empty, falsy_opt. cbn [filter].
    rewrite !orb_false_r.
    destruct (negb (truthy (Name data)));
      destruct (negb (truthy (Phone data)) || negb (length (Phone data) =? 11));
      destruct (negb (truthy (Address data)));
      destruct (Amount data) as [a|]; try destruct (negb (truthy a));
      reflexivity. }
  rewrite H, filter_In. split; [tauto|].
  intro Hd. split; [|exact Hd]. destruct f; simpl; tauto.
Qed.

Lemma phone_fold_nil_iff (lines : list str) :
  fold_left phone_step lines [] = []
  <-> Forall (fun l => extract_phone_number (strip l) = None) lines.
Proof.
  split; [|apply phone_no_match].
  induction lines as [|raw later IH]; intro H; [constructor|].
  cbn [fold_left] in H. unfold phone_step at 2 in H. cbn [truthy] in H.
  destruct (extract_phone_number (strip raw)) as [p|] eqn:E.
  - exfalso. apply extract_phone_number_shape in E. destruct E as [[Hlen _] _].
    rewrite phone_step_set in H by (destruct p; [discriminate|reflexivity]).
    subst p. discriminate.
  - constructor; [exact E|now apply IH].
Qed.

(** X8. A block gets the Phone defect exactly when none of its lines holds
    a phone number, that is when [extract_phone_number] finds nothing in any
    line of it. *)
Theorem phone_defect_iff_no_number (block_text : str) :
  In F_Phone (validate_data (process_customer_block block_text))
  <-> Forall (fun l => extract_phone_number (strip l) = None)
             (block_lines block_text).
Proof.
  rewrite In_validate_data, <- phone_fold_nil_iff, <- process_customer_block_phone.
  unfold is_defect, field_empty.
  destruct (phone_of_block_shape block_text) as [H|[Hlen _]].
  - rewrite H. now split.
  - rewrite Hlen. cbn [Nat.eqb negb orb].
    destruct (Phone (process_customer_block block_text)); [discriminate|].
    cbn [truthy negb]. split; discriminate.
Qed.

Lemma join_nil_iff (sep : str) (ls : list str) :
  Forall (fun l => l <> []) ls -> (join sep ls = [] <-> ls = []).
Proof.
  intro H. split; [|now intros ->].
  destruct H as [|x rest Hx _]; [reflexivity|].
  destruct x as [|c x]; [congruence|].
  destruct rest; discriminate.
Qed.

Lemma filter_nil_iff {A : Type} (p : A -> bool) (l : list A) :
  filter p l = [] <-> Forall (fun x => p x = false) l.
Proof.
  induction l as [|x l IH]; [split; constructor|].
  cbn [filter]. destruct (p x) eqn:E.
  - split; [discriminate|]. intro H. inversion H; congruence.
  - rewrite IH. split; intro H; [now constructor|now inversion H].
Qed.

(** X9. A block gets the Address defect exactly when none of its lines is
    an address line (a line with an address keyword and without an order
    keyword). *)
Theorem address_defect_iff_no_address_line (block_text : str) :
  In F_Address (validate_data (process_customer_block block_text))
  <-> Forall (fun l => is_address_line (strip l) = false)
             (block_lines block_text).
Proof.
  rewrite In_validate_data. unfold is_defect, field_empty.
  rewrite orb_false_r.
  unfold process_customer_block. cbn [Address].
  rewrite address_scan_lines. cbn [init_fields address_lines app].
  fold (block_lines block_text).
  rewrite <- Forall_map with (f := strip) (P := fun l => is_address_line l = false).
  rewrite <- filter_nil_iff.
  rewrite <- (join_nil_iff [nl]).
  - destruct (join [nl] _); cbn [truthy negb]; split; congruence.
  - apply Forall_forall. intros l Hl. apply filter_In in Hl.
    destruct Hl as [_ Hl]. intros ->. now rewrite is_address_line_nil in Hl.
Qed.

(** X10. A block gets the Amount defect exactly when it has no order note
    (no line with an order marker and a non-empty line after it) or
    [extract_amount] finds nothing in the order note that counts, the last
    one. *)
Theorem amount_defect_iff_no_amount (block_text : str) :
  let notes := note_candidates (block_lines block_text) in
  In F_Amount (validate_data (process_customer_block block_text))
  <-> notes = [] \/ extract_amount (last notes []) = None.
Proof.
  cbv zeta. rewrite In_validate_data. unfold is_defect, field_empty.
  rewrite orb_false_r.
  destruct (note_and_amount_of_block block_text) as [_ Ha]. rewrite Ha.
  destruct (note_candidates (block_lines block_text)) as [|n ns].
  - cbn [map last truthy negb]. split; auto.
  - assert (Hnn : n :: ns <> []) by discriminate.
    rewrite (last_map_nonempty extract_amount _ [] _ Hnn).
    destruct (extract_amount_shape (last (n :: ns) []))
      as [H|(a & H & Hne & _)]; rewrite H.
    + split; auto.
    + destruct a; [congruence|]. cbn [truthy negb].
      split; [discriminate|]. intros [H0|H0]; discriminate.
Qed.

(** ** The phone number of a line *)

Lemma search_digits11_none (s : str) :
  search (Group (Rep 11 digit)) s = None ->
  forall k, (11 <=? length (skipn k s)) && forallb isdecimal (firstn 11 (skipn k s))
            = false.
Proof.
  intros H k.
  destruct ((11 <=? length (skipn k s)) && forallb isdecimal (firstn 11 (skipn k s)))
    eqn:E; [exfalso|reflexivity].
  revert H. unfold search. rewrite <- (firstn_skipn k s).
  apply ReFacts.search_from_complete.
  intro b. rewrite match_here_digits11, E. discriminate.
Qed.

(** X11. What [extract_phone_number] returns for a line: the leftmost run
    of eleven consecutive digit characters of the normalised line, cut out of
    a longer run of digits when there is one; and [None] exactly when the
    normalised line has no eleven consecutive digits anywhere. *)
Theorem phone_number_is_leftmost_window (line : str) :
  let text := bengali_to_english_digits line in
  let window k := (11 <=? length (skipn k text))
                  && forallb isdecimal (firstn 11 (skipn k text)) in
  match extract_phone_number line with
  | Some p =>
      exists k, p = firstn 11 (skipn k text) /\ window k = true
                /\ forall j, j < k -> window j = false
  | None => forall k, window k = false
  end.
Proof.
  cbv zeta. rewrite extract_phone_number_first_pattern.
  destruct (search _ _) as [m|] eqn:E; [|now apply search_digits11_none].
  pose proof (search_digits11 _ _ E) as (w & Hw & Hlen & Hd & Hs).
  rewrite Hw. exists (length (m_pre m)).
  assert (Hskip : skipn (length (m_pre m)) (bengali_to_english_digits line)
                  = w ++ m_post m).
  { rewrite Hs at 1. rewrite skipn_app, Nat.sub_diag, skipn_all. reflexivity. }
  assert (Hfirst : firstn 11 (w ++ m_post m) = w).
  { rewrite <- Hlen. rewrite firstn_app, Nat.sub_diag, firstn_all. simpl.
    apply app_nil_r. }
  rewrite Hskip, Hfirst. repeat split.
  - rewrite Hd, length_app, Hlen. reflexivity.
  - intros j Hj.
    pose proof (ReFacts.search_from_leftmost _ _ _ _ _ E j) as Hl.
    cbn [length] in Hl. rewrite Nat.sub_0_r in Hl. specialize (Hl Hj).
    rewrite match_here_digits11 in Hl.
    now destruct ((11 <=? _) && _).
Qed.

(** Two numbers in a block, the first after a line without one. *)
Lemma process_customer_block_phone_first_match_witness :
  let block_text := join [nl] [u "name: Salma"; u "phone 01812345678";
                               u "office ০১৭১২৩৪৫৬৭৮"] in
  block_lines block_text
  = [u "name: Salma"] ++ u "phone 01812345678" :: [u "office ০১৭১২৩৪৫৬৭৮"]
  /\ Forall (fun l => extract_phone_number (strip l) = None) [u "name: Salma"]
  /\ extract_phone_number (strip (u "phone 01812345678")) = Some (u "01812345678")
  /\ Phone (process_customer_block block_text) = u "01812345678".
Proof.
  intro block_text.
  assert (H1 : block_lines block_text
               = [u "name: Salma"] ++ u "phone 01812345678"
                   :: [u "office ০১৭১২৩৪৫৬৭৮"])
    by (vm_compute; reflexivity).
  assert (H2 : Forall (fun l => extract_phone_number (strip l) = None)
                      [u "name: Salma"])
    by (repeat constructor).
  assert (H3 : extract_phone_number (strip (u "phone 01812345678"))
               = Some (u "01812345678"))
    by (vm_compute; reflexivity).
  split; [exact H1|]. split; [exact H2|]. split; [exact H3|].
  exact (process_customer_block_phone_first_match block_text _ _ _ _ H1 H2 H3).
Defined.

(** ** The amount of a note *)

Lemma startswith_iff (s kw : str) :
  startswith s kw = true <-> exists post, s = kw ++ post.
Proof.
  split.
  - intro H. exists (skipn (length kw) s). now apply startswith_app.
  - intros [post ->]. induction kw as [|a kw IH]; [reflexivity|].
    cbn [app startswith]. now rewrite N.eqb_refl.
Qed.

Lemma contains_iff (kw s : str) :
  contains kw s = true <-> exists pre post, s = pre ++ kw ++ post.
Proof.
  split.
  - induction s as [|c s IH]; cbn [contains]; intro H.
    + rewrite orb_false_r in H. apply startswith_iff in H.
      destruct H as [post ->]. now exists [], post.
    + apply orb_true_iff in H. destruct H as [H|H].
      * apply startswith_iff in H. destruct H as [post ->]. now exists [], post.
      * destruct (IH H) as (pre & post & ->). now exists (c :: pre), post.
  - intros (pre & post & ->). induction pre as [|c pre IH].
    + cbn [app].
      assert (H : startswith (kw ++ post) kw = true)
        by (apply startswith_iff; now exists post).
      destruct (kw ++ post); cbn [contains]; now rewrite H.
    + cbn [app contains]. rewrite IH. apply orb_true_r.
Qed.

(** Normalising the digits does not make or unmake an occurrence of a word
    without digits. *)
Lemma startswith_normalized (kw : str) :
  forallb (fun k => negb (is_ascii_digit k) && negb (is_bengali_digit k)) kw = true ->
  forall s, startswith (map ascii_equivalent s) kw = startswith s kw.
Proof.
  induction kw as [|a kw IH]; intros Hkw s; [reflexivity|].
  cbn [forallb] in Hkw. apply andb_true_iff in Hkw. destruct Hkw as [Ha Hkw].
  apply andb_true_iff in Ha. destruct Ha as [Ha1 Ha2].
  destruct s as [|b s]; [reflexivity|].
  cbn [map startswith]. rewrite (IH Hkw). f_equal.
  unfold ascii_equivalent. destruct (is_bengali_digit b) eqn:Eb; [|reflexivity].
  destruct (N.eqb_spec a b) as [->|Hab]; [rewrite Eb in Ha2; discriminate|].
  apply N.eqb_neq. intros ->.
  destruct (ascii_equivalent_of_bengali b Eb) as [Hd _].
  unfold ascii_equivalent in Hd. rewrite Eb in Hd. rewrite Hd in Ha1. discriminate.
Qed.

Lemma contains_normalized (kw : str) :
  forallb (fun k => negb (is_ascii_digit k) && negb (is_bengali_digit k)) kw = true ->
  forall s, contains kw (bengali_to_english_digits s) = contains kw s.
Proof.
  intros Hkw s. rewrite bengali_to_english_digits_map.
  induction s as [|c s IH]; cbn [map contains].
  - now rewrite <- (startswith_normalized kw Hkw []).
  - rewrite IH. f_equal. apply (startswith_normalized kw Hkw (c :: s)).
Qed.

Lemma Lang_lit (l w : str) : Lang (Lit l) w -> w = l.
Proof.
  revert w. induction l as [|a l IH]; intros w H; cbn [Lit fold_right] in H.
  - now inversion H.
  - inversion H as [| | |? ? w1 w2 H1 H2| | | | |]; subst.
    inversion H1 as [| |? c Hc| | | | | |]; subst.
    apply N.eqb_eq in Hc. subst c. apply IH in H2. now subst.
Qed.

Lemma Lang_cat_lit (a : re) (l w : str) :
  Lang (a >> Lit l) w -> exists w1, w = w1 ++ l.
Proof.
  intro H. inversion H as [| | |? ? w1 w2 _ Hl| | | | |]; subst.
  apply Lang_lit in Hl. subst w2. now exists w1.
Qed.

(** The two ways the amount pattern matches: a number with the Bengali unit
    after it, which fills group 1, or the bare Latin word, which does not. *)
Lemma amount_pattern_match (text : str) (m : Match) :
  search amount_pattern text = Some m ->
  (exists w, m_group1 m = Some w /\ contains (u "টাকা") text = true)
  \/ (m_group1 m = None /\ contains (u "Taka") text = true).
Proof.
  intro E. apply ReFacts.search_from_some in E.
  destruct E as (s1 & s2 & bol' & Htext & _ & Hm).
  unfold match_here, amount_pattern in Hm. rewrite bt_alt in Hm.
  destruct (bt (Group (Plus digit) >> _) bol' s2 None _) as [x|] eqn:Ea.
  - injection Hm as ->. rewrite ReFacts.bt_cat in Ea.
    apply ReFacts.bt_group_sound in Ea.
    destruct Ea as (w & s' & b1 & Hs2 & _ & Hk).
    apply ReFacts.bt_sound in Hk.
    destruct Hk as (w2 & s'' & b2 & g2 & Hs' & Hw2 & Hk & Hg).
    injection Hk as _ Hg1. rewrite <- Hg1, Hg by reflexivity.
    left. exists w. split; [reflexivity|].
    apply Lang_cat_lit in Hw2. destruct Hw2 as [ws ->].
    apply contains_iff. exists (s1 ++ w ++ ws), s''.
    rewrite Htext, Hs2, Hs'. now rewrite <- !app_assoc.
  - rewrite ReFacts.bt_lit in Hm.
    destruct (startswith s2 (u "Taka")) eqn:Hsw; [|discriminate].
    injection Hm as _ Hg. right. split; [now rewrite <- Hg|].
    apply startswith_iff in Hsw. destruct Hsw as [post Hpost].
    apply contains_iff. exists s1, post. now rewrite Htext, Hpost.
Qed.

Lemma star_loop_total {A : Type} (body : bool -> str -> option str -> cont -> option A)
  (k : cont) :
  (forall b s g, k b s g <> None) ->
  forall fuel bol s g, star_loop body k fuel bol s g <> None.
Proof.
  intros Hk fuel bol s g. destruct fuel as [|f]; cbn [star_loop]; [apply Hk|].
  destruct (body bol s g _); [discriminate|apply Hk].
Qed.

Lemma match_here_number (b : bool) (d : cp) (rest : str) :
  isdecimal d = true -> match_here (Group (Plus digit)) b (d :: rest) <> None.
Proof.
  intro Hd. unfold match_here, Plus, digit. cbn [bt]. rewrite Hd.
  apply star_loop_total. discriminate.
Qed.

Lemma search_number (text : str) :
  forallb (fun c => negb (isdecimal c)) text = false ->
  exists m w, search (Group (Plus digit)) text = Some m /\ m_group1 m = Some w.
Proof.
  intro H.
  assert (Hsplit : exists t1 d t2, text = t1 ++ d :: t2 /\ isdecimal d = true).
  { induction text as [|c t IH]; [discriminate|].
    cbn [forallb] in H. destruct (isdecimal c) eqn:E.
    - now exists [], c, t.
    - destruct (IH H) as (t1 & d & t2 & -> & Hd). now exists (c :: t1), d, t2. }
  destruct Hsplit as (t1 & d & t2 & -> & Hd).
  destruct (search (Group (Plus digit)) (t1 ++ d :: t2)) as [m|] eqn:E.
  - exists m. apply ReFacts.search_from_some in E.
    destruct E as (s1 & s2 & bol' & _ & _ & Hm).
    apply ReFacts.bt_group_sound in Hm.
    destruct Hm as (w & s' & b1 & _ & _ & Hk).
    injection Hk as _ Hg. exists w. now rewrite <- Hg.
  - exfalso. revert E. apply ReFacts.search_from_complete.
    intro b. now apply match_here_number.
Qed.

Lemma normalized_has_digit (note_text : str) :
  forallb (fun c => negb (isdecimal c)) note_text = false ->
  forallb (fun c => negb (isdecimal c)) (bengali_to_english_digits note_text) = false.
Proof.
  rewrite bengali_to_english_digits_map.
  induction note_text as [|c t IH]; [discriminate|].
  cbn [forallb map]. destruct (isdecimal c) eqn:E; cbn [negb andb].
  - intros _.
    assert (H : isdecimal (ascii_equivalent c) = true).
    { unfold ascii_equivalent. destruct (is_bengali_digit c) eqn:Eb; [|exact E].
      apply ascii_digit_isdecimal.
      destruct (ascii_equivalent_of_bengali c Eb) as [Hd _].
      unfold ascii_equivalent in Hd. now rewrite Eb in Hd. }
    now rewrite H.
  - intro H. rewrite (IH H). apply andb_false_r.
Qed.

(** X13. For a note without the Latin word "Taka": [extract_amount] returns
    [None] exactly when the note holds no digit at all; any digit, with the
    Bengali unit after it or not, gives an amount. *)
Theorem amount_found_iff_digit (note_text : str) :
  contains (u "Taka") note_text = false ->
  (extract_amount note_text = None
   <-> forallb (fun c => negb (isdecimal c)) note_text = true).
Proof.
  intro Hno. split; [|apply extract_amount_no_digit].
  intro Hnone.
  destruct (forallb (fun c => negb (isdecimal c)) note_text) eqn:Hd; [reflexivity|].
  exfalso. apply normalized_has_digit in Hd.
  unfold extract_amount in Hnone. cbv zeta in Hnone.
  destruct (search amount_pattern (bengali_to_english_digits note_text))
    as [m|] eqn:E.
  - apply amount_pattern_match in E. destruct E as [(w & Hw & _)|[_ Ht]].
    + rewrite Hw in Hnone. discriminate.
    + rewrite contains_normalized in Ht by reflexivity. congruence.
  - destruct (search_number _ Hd) as (m & w & Hs & Hw).
    rewrite Hs, Hw in Hnone. discriminate.
Qed.

Lemma amount_found_iff_digit_witness :
  contains (u "Taka") (u "২ পিস ৭৫০") = false
  /\ (extract_amount (u "২ পিস ৭৫০") = None
      <-> forallb (fun c => negb (isdecimal c)) (u "২ পিস ৭৫০") = true).
Proof.
  split; [vm_compute; reflexivity|].
  apply amount_found_iff_digit. vm_compute. reflexivity.
Defined.

(** X14. A note with the Latin word "Taka" and without the Bengali word
    "টাকা" has no amount, whatever digits it holds: the bare word is a match
    of the amount pattern with group 1 unset, and the search for any number
    is not reached. *)
Theorem latin_taka_gives_no_amount (note_text : str) :
  contains (u "Taka") note_text = true ->
  contains (u "টাকা") note_text = false ->
  extract_amount note_text = None.
Proof.
  intros Hlatin Hbengali.
  unfold extract_amount. cbv zeta.
  set (text := bengali_to_english_digits note_text).
  assert (Ht : contains (u "Taka") text = true)
    by (unfold text; now rewrite contains_normalized).
  assert (Hb : contains (u "টাকা") text = false)
    by (unfold text; now rewrite contains_normalized).
  destruct (search amount_pattern text) as [m|] eqn:E.
  - apply amount_pattern_match in E. destruct E as [(w & _ & Hc)|[Hg _]].
    + congruence.
    + exact Hg.
  - exfalso. apply contains_iff in Ht. destruct Ht as (pre & post & Hpre).
    revert E. unfold search. rewrite Hpre.
    apply ReFacts.search_from_complete.
    intro b. unfold match_here, amount_pattern. rewrite bt_alt.
    destruct (bt (Group (Plus digit) >> _) b _ None _); [discriminate|].
    rewrite ReFacts.bt_lit.
    assert (Hs : startswith (u "Taka" ++ post) (u "Taka") = true)
      by (apply startswith_iff; now exists post).
    rewrite Hs. discriminate.
Qed.

Lemma latin_taka_gives_no_amount_witness :
  contains (u "Taka") (u "2 pcs, 750 Taka") = true
  /\ contains (u "টাকা") (u "2 pcs, 750 Taka") = false
  /\ extract_amount (u "2 pcs, 750 Taka") = None.
Proof.
  split; [vm_compute; reflexivity|].
  split; [vm_compute; reflexivity|].
  apply latin_taka_gives_no_amount; vm_compute; reflexivity.
Defined.

(** ** The name of a block *)

Lemma bt_litI {A : Type} (l : str) :
  forall bol s g (k : @cont A),
    bt (LitI l) bol s g k =
    if startswith_ci s l
    then k (bol && negb (truthy l)) (skipn (length l) s) g
    else None.
Proof.
  induction l as [|a l IH]; intros bol s g k.
  - simpl. now rewrite andb_true_r.
  - destruct s as [|b s']; [reflexivity|].
    cbn [LitI fold_right bt LitI1 startswith_ci].
    destruct (N.eqb (lower b) (lower a)); [|reflexivity].
    fold (LitI l). rewrite IH. cbn [andb truthy negb length skipn].
    now rewrite andb_false_r.
Qed.

Lemma bt_chr {A : Type} (p : cp -> bool) bol s g (k : @cont A) :
  bt (Chr p) bol s g k
  = match s with
    | c :: s' => if p c then k false s' g else None
    | [] => None
    end.
Proof. reflexivity. Qed.

Lemma bt_eps {A : Type} bol s g (k : @cont A) : bt Eps bol s g k = k bol s g.
Proof. reflexivity. Qed.

Lemma bt_bol_true {A : Type} s g (k : @cont A) : bt Bol true s g k = k true s g.
Proof. reflexivity. Qed.

Lemma bt_group {A : Type} (a : re) bol s g (k : @cont A) :
  bt (Group a) bol s g k
  = bt a bol s g
       (fun bol' s' _ => k bol' s' (Some (firstn (length s - length s') s))).
Proof. reflexivity. Qed.

Lemma or_else_some {A : Type} (x y : option A) :
  x <> None -> match x with Some v => Some v | None => y end = x.
Proof. now destruct x. Qed.

(** [\s*] before a continuation that cannot fail takes all the whitespace
    there is. *)
Lemma bt_star_space {A : Type} (k : @cont A) :
  (forall b s g, k b s g <> None) ->
  forall bol s g, exists b', bt (Star space) bol s g k = k b' (lstrip s) g.
Proof.
  intros Hk bol s g. cbn [bt].
  assert (H : forall fuel bol s, length s <= fuel ->
                exists b', star_loop (bt space) k fuel bol s g = k b' (lstrip s) g).
  { induction fuel as [|f IH]; intros b0 t Hlen.
    - destruct t; [|simpl in Hlen; lia]. now exists b0.
    - cbn [star_loop]. unfold space at 1. cbn [bt].
      destruct t as [|c t']; [now exists b0|].
      cbn [lstrip]. destruct (isspace c); [|now exists b0].
      cbn [length]. rewrite (proj2 (Nat.ltb_lt _ _) (Nat.lt_succ_diag_r _)).
      destruct (IH false t') as [b' Hb]; [simpl in Hlen; lia|].
      exists b'. rewrite or_else_some; [exact Hb|].
      rewrite Hb. apply Hk. }
  now apply H.
Qed.

(** The part of the name-prefix pattern after the marker. *)
Lemma name_prefix_tail (bol : bool) (s : str) (g : option str) :
  bt (Star space
      >> Opt (Chr (fun c => N.eqb c 0x3A || N.eqb c 0xFF1A))
      >> Star space) bol s g (fun _ s' g' => Some (s', g'))
  = Some (lstrip (drop_colon (lstrip s)), g).
Proof.
  set (k0 := fun (_ : bool) (s' : str) (g' : option str) => Some (s', g')).
  assert (H2 : forall b t g', bt (Star space) b t g' k0 = Some (lstrip t, g')).
  { intros b t g'. destruct (bt_star_space k0) with (bol := b) (s := t) (g := g')
      as [b' ->]; [discriminate|reflexivity]. }
  assert (H1 : forall b t g',
             bt (Opt (Chr (fun c => N.eqb c 0x3A || N.eqb c 0xFF1A)) >> Star space)
                b t g' k0
             = Some (lstrip (drop_colon t), g')).
  { intros b t g'. rewrite ReFacts.bt_cat. unfold Opt.
    rewrite bt_alt, bt_chr, bt_eps.
    destruct t as [|c t']; [apply H2|].
    cbn [drop_colon]. destruct (N.eqb c 0x3A || N.eqb c 0xFF1A).
    - rewrite H2. reflexivity.
    - apply H2. }
  rewrite ReFacts.bt_cat.
  destruct (bt_star_space
              (fun bol' s' g' =>
                 bt (Opt (Chr (fun c => N.eqb c 0x3A || N.eqb c 0xFF1A)) >> Star space)
                    bol' s' g' k0))
    with (bol := bol) (s := s) (g := g) as [b' ->].
  - intros b t g'. rewrite H1. discriminate.
  - apply H1.
Qed.

Lemma name_prefix_match_here (s : str) :
  option_map fst (match_here name_prefix_pattern true s)
  = option_map (fun marker => lstrip (drop_colon (lstrip (skipn (length marker) s))))
               (find (startswith_ci s) name_markers).
Proof.
  unfold match_here, name_prefix_pattern.
  rewrite ReFacts.bt_cat, bt_bol_true. cbv beta.
  rewrite ReFacts.bt_cat, bt_group, !bt_alt, !bt_litI.
  unfold name_markers. cbn [find]. cbv beta.
  destruct (startswith_ci s (u "নাম")); [now rewrite name_prefix_tail|].
  destruct (startswith_ci s (u "আপনার নাম")); [now rewrite name_prefix_tail|].
  destruct (startswith_ci s (u "name")); [now rewrite name_prefix_tail|].
  destruct (startswith_ci s (u "nam")); [now rewrite name_prefix_tail|].
  reflexivity.
Qed.

Lemma name_prefix_not_at_start (s pre : str) :
  search_from name_prefix_pattern false pre s = None.
Proof.
  revert pre. induction s as [|c s IH]; intro pre; cbn [search_from].
  - reflexivity.
  - change (match_here name_prefix_pattern false (c :: s)) with (@None (str * option str)).
    apply IH.
Qed.

Lemma name_prefix_sub_rest (fuel : nat) (s : str) :
  sub_from fuel name_prefix_pattern [] false s = s.
Proof.
  destruct fuel; [reflexivity|].
  cbn [sub_from]. now rewrite name_prefix_not_at_start.
Qed.

Lemma search_from_unfold (r : re) (bol : bool) (pre s : str) :
  search_from r bol pre s
  = match match_here r bol s with
    | Some (s', g) =>
        Some {| m_pre := rev pre;
                m_text := firstn (length s - length s') s;
                m_post := s';
                m_group1 := g |}
    | None =>
        match s with
        | [] => None
        | c :: s' => search_from r false (c :: pre) s'
        end
    end.
Proof. destruct s; reflexivity. Qed.

Lemma name_prefix_sub (line : str) :
  sub name_prefix_pattern [] line = strip_name_marker line.
Proof.
  unfold sub, strip_name_marker. cbn [sub_from].
  rewrite search_from_unfold.
  pose proof (name_prefix_match_here line) as H.
  destruct (match_here name_prefix_pattern true line) as [[s' g]|];
    destruct (find (startswith_ci line) name_markers) as [marker|];
    cbn [option_map fst] in H; try discriminate.
  - injection H as <-. cbn [m_pre m_text m_post rev app].
    destruct (firstn _ line); destruct s' as [|c0 rest];
      rewrite ?name_prefix_sub_rest; reflexivity.
  - destruct line; [reflexivity|]. now rewrite name_prefix_not_at_start.
Qed.

(** X15. The substitution that takes the marker off a name line: a line
    that begins, in any mix of capitals and small letters, with one of the
    four markers loses that marker, the whitespace after it, one colon (ASCII
    or full-width) if there is one, and the whitespace after the colon; a
    line that does not begin with a marker is returned as it is, also when a
    marker stands later in it. *)
Theorem name_marker_substitution (line : str) :
  sub name_prefix_pattern [] line = strip_name_marker line.
Proof. exact (name_prefix_sub line). Qed.

Lemma name_line_step (i : nat) (raw : str) (later : list str) (st : fields) :
  name (line_step i raw later st) = name_step i (name st) raw.
Proof.
  unfold line_step, name_step. cbv zeta.
  destruct (strip raw) as [|c line] eqn:Hline; cbn [truthy negb andb]; [reflexivity|].
  set (l := c :: line).
  destruct (negb (truthy (name st)) && (Nat.eqb i 0 || any_in name_keywords l));
    cbn [phone name];
    destruct (has_order_marker l); [destruct (next_nonempty later)| |
                                    destruct (next_nonempty later)|];
    cbn [name];
    destruct (is_address_line l); cbn [phone name];
    destruct (negb (truthy (phone st))); try reflexivity;
    destruct (extract_phone_number l) as [[|d p]|]; reflexivity.
Qed.

Lemma name_scan_lines (lines : list str) :
  forall i st, name (scan_lines i lines st) = name_scan i lines (name st).
Proof.
  induction lines as [|raw later IH]; intros i st; [reflexivity|].
  cbn [scan_lines name_scan]. now rewrite IH, name_line_step.
Qed.

Lemma name_scan_set (lines : list str) :
  forall i nm, truthy nm = true -> name_scan i lines nm = nm.
Proof.
  induction lines as [|raw later IH]; intros i nm H; [reflexivity|].
  cbn [name_scan]. unfold name_step. cbv zeta.
  rewrite H. cbn [negb]. rewrite andb_false_r. cbn [andb]. now apply IH.
Qed.

Lemma process_customer_block_name (block_text : str) :
  Name (process_customer_block block_text)
  = name_scan 0 (block_lines block_text) [].
Proof.
  unfold process_customer_block. cbn [Name]. now rewrite name_scan_lines.
Qed.

(** X16. The first line of a block gives the Name whenever something is
    left of it once the marker is taken off: the Name is that rest, stripped,
    and no later line changes it, with a name keyword or not. *)
Theorem name_from_first_line (block_text first : str) (later : list str) :
  block_lines block_text = first :: later ->
  strip (strip_name_marker (strip first)) <> [] ->
  Name (process_customer_block block_text)
  = strip (strip_name_marker (strip first)).
Proof.
  intros Hl Hne. rewrite process_customer_block_name, Hl.
  cbn [name_scan]. unfold name_step. cbv zeta.
  rewrite name_prefix_sub.
  destruct (strip first) as [|c t] eqn:E.
  - exfalso. apply Hne. reflexivity.
  - cbn [truthy negb andb Nat.eqb orb].
    apply name_scan_set.
    destruct (strip (strip_name_marker (c :: t))); [congruence|reflexivity].
Qed.

Lemma name_from_first_line_witness :
  let block_text := join [nl] [u "NAME :  Abdul Karim"; u "nam: other";
                               u "phone 01812345678"] in
  block_lines block_text
  = u "NAME :  Abdul Karim" :: [u "nam: other"; u "phone 01812345678"]
  /\ strip (strip_name_marker (strip (u "NAME :  Abdul Karim"))) <> []
  /\ Name (process_customer_block block_text) = u "Abdul Karim".
Proof.
  intro block_text.
  assert (H1 : block_lines block_text
               = u "NAME :  Abdul Karim" :: [u "nam: other"; u "phone 01812345678"])
    by (vm_compute; reflexivity).
  assert (H2 : strip (strip_name_marker (strip (u "NAME :  Abdul Karim"))) <> [])
    by (vm_compute; discriminate).
  split; [exact H1|]. split; [exact H2|].
  rewrite (name_from_first_line block_text _ _ H1 H2).
  vm_compute. reflexivity.
Defined.

Lemma name_scan_trimmed (lines : list str) :
  forall i nm, trimmed nm -> trimmed (name_scan i lines nm).
Proof.
  induction lines as [|raw later IH]; intros i nm H; [exact H|].
  cbn [name_scan]. apply IH. unfold name_step. cbv zeta.
  destruct (_ && _); [apply strip_trimmed|exact H].
Qed.

(** X17. The Name of a record never begins or ends with whitespace: it is
    the empty string or the result of a [strip]. *)
Theorem name_is_trimmed (block_text : str) :
  trimmed (Name (process_customer_block block_text))
  /\ strip (Name (process_customer_block block_text))
     = Name (process_customer_block block_text).
Proof.
  assert (H : trimmed (Name (process_customer_block block_text))).
  { rewrite process_customer_block_name. apply name_scan_trimmed. now split. }
  split; [exact H|now apply trimmed_strip].
Qed.

(** ** Line endings *)

Lemma match_here_lit1 (c : cp) (bol : bool) (s : str) :
  match_here (Lit1 c) bol s
  = match s with
    | x :: s' => if N.eqb c x then Some (s', None) else None
    | [] => None
    end.
Proof. destruct s; reflexivity. Qed.

(** Searching for one character: a hit is its first occurrence, a miss means
    that there is none. *)
Lemma search_from_lit1 (c : cp) :
  forall s bol pre,
    match search_from (Lit1 c) bol pre s with
    | Some m => exists s1, s = s1 ++ c :: m_post m /\ ~ In c s1
                           /\ m_pre m = rev pre ++ s1 /\ m_text m = [c]
    | None => ~ In c s
    end.
Proof.
  induction s as [|x s IH]; intros bol pre.
  - simpl. tauto.
  - rewrite search_from_unfold, match_here_lit1.
    destruct (N.eqb_spec c x) as [<-|Hx].
    + exists []. cbn [m_post m_pre m_text app length].
      repeat split; auto.
      * now rewrite app_nil_r.
      * replace (S (length s) - length s) with 1 by lia. reflexivity.
    + specialize (IH false (x :: pre)).
      destruct (search_from (Lit1 c) false (x :: pre) s) as [m|].
      * destruct IH as (s1 & Hs & Hnot & Hpre & Htext).
        exists (x :: s1). repeat split.
        -- simpl. now f_equal.
        -- simpl. intros [H|H]; [congruence|contradiction].
        -- rewrite Hpre. simpl. now rewrite <- app_assoc.
        -- exact Htext.
      * simpl. intros [H|H]; [congruence|contradiction].
Qed.

Lemma sub_lit1_removes (c : cp) (repl : str) :
  ~ In c repl ->
  forall fuel bol s, length s < fuel -> ~ In c (sub_from fuel (Lit1 c) repl bol s).
Proof.
  intros Hrepl. induction fuel as [|f IH]; intros bol s Hlen; [lia|].
  cbn [sub_from]. pose proof (search_from_lit1 c s bol []) as H.
  destruct (search_from (Lit1 c) bol [] s) as [m|]; [|exact H].
  destruct H as (s1 & Hs & Hnot & Hpre & Htext).
  rewrite Htext, Hpre. cbn [rev app].
  assert (Hpost : length (m_post m) < f).
  { rewrite Hs, length_app in Hlen. cbn [length] in Hlen. lia. }
  intro Hin. apply in_app_or in Hin. destruct Hin as [Hin|Hin]; [contradiction|].
  apply in_app_or in Hin. destruct Hin as [Hin|Hin]; [contradiction|].
  now apply (IH false (m_post m) Hpost).
Qed.

(** A substitution brings in no character that is neither in the text nor
    in the replacement. *)
Lemma sub_from_chars (P : cp -> Prop) (r : re) (repl : str) :
  Forall P repl ->
  forall fuel bol s, Forall P s -> Forall P (sub_from fuel r repl bol s).
Proof.
  intros Hrepl. induction fuel as [|f IH]; intros bol s Hs; [exact Hs|].
  cbn [sub_from].
  destruct (search_from r bol [] s) as [m|] eqn:E; [|exact Hs].
  apply ReFacts.search_from_text in E. destruct E as (s1 & Heq & Hpre).
  cbn [rev app] in Hpre. rewrite Hpre.
  rewrite Heq in Hs. apply Forall_app in Hs. destruct Hs as [H1 Hs].
  apply Forall_app in Hs. destruct Hs as [_ Hpost].
  apply Forall_app. split; [exact H1|].
  apply Forall_app. split; [exact Hrepl|].
  destruct (m_text m); destruct (m_post m) as [|x rest]; auto.
  inversion Hpost; subst. constructor; auto.
Qed.

Lemma normalize_text_no_cr (input_text : str) : ~ In cr (normalize_text input_text).
Proof.
  unfold normalize_text, sub. cbv zeta.
  set (t1 := sub_from _ (Lit [cr; nl]) [nl] true input_text).
  set (t2 := sub_from (S (length t1)) (Lit1 cr) [nl] true t1).
  assert (H2 : Forall (fun c => c <> cr) t2).
  { apply Forall_forall. intros c Hc ->. revert Hc.
    apply sub_lit1_removes; [|lia].
    simpl. intros [H|H]; [discriminate|exact H]. }
  assert (H3 : Forall (fun c => c <> cr) (sub_from (S (length t2)) blank_lines_pattern
                                                   [nl; nl] true t2)).
  { apply sub_from_chars; [|exact H2]. repeat constructor; discriminate. }
  rewrite Forall_forall in H3. intro Hin. now apply (H3 cr Hin).
Qed.

Lemma split_from_chars (P : cp -> Prop) (r : re) :
  forall fuel bol s, Forall P s -> Forall (Forall P) (split_from fuel r bol s).
Proof.
  induction fuel as [|f IH]; intros bol s Hs; [now repeat constructor|].
  cbn [split_from].
  destruct (search_from r bol [] s) as [m|] eqn:E; [|now repeat constructor].
  apply ReFacts.search_from_text in E. destruct E as (s1 & Heq & Hpre).
  destruct (m_text m) eqn:Et; [now repeat constructor|].
  cbn [rev app] in Hpre. rewrite Hpre.
  rewrite Heq in Hs. apply Forall_app in Hs. destruct Hs as [H1 Hs].
  apply Forall_app in Hs. destruct Hs as [_ Hpost].
  constructor; [exact H1|now apply IH].
Qed.

Lemma split_chars (P : cp -> Prop) (sep : cp) (s : str) :
  Forall P s -> Forall (Forall P) (PyStr.split sep s).
Proof.
  induction 1 as [|c s Hc _ IH]; [now repeat constructor|].
  cbn [PyStr.split]. destruct (N.eqb c sep); [now constructor|].
  destruct (PyStr.split sep s) as [|x xs]; [now repeat constructor|].
  inversion IH; subst. constructor; [now constructor|assumption].
Qed.

Lemma strip_chars (P : cp -> Prop) (s : str) : Forall P s -> Forall P (strip s).
Proof.
  intro H. rewrite Forall_forall in *. intros c Hc. apply H. now apply In_strip.
Qed.

Lemma join_chars (P : cp -> Prop) (ls : list str) :
  P nl -> Forall (Forall P) ls -> Forall P (join [nl] ls).
Proof.
  intros Hnl. induction 1 as [|x rest Hx _ IH]; [constructor|].
  destruct rest as [|y rest]; [exact Hx|].
  change (join [nl] (x :: y :: rest)) with (x ++ [nl] ++ join [nl] (y :: rest)).
  apply Forall_app. split; [exact Hx|]. constructor; [exact Hnl|exact IH].
Qed.

Lemma segments_chars (P : cp -> Prop) (input_text : str) :
  Forall P (normalize_text input_text) ->
  Forall (Forall P) (concat (segments input_text)).
Proof.
  intro H. unfold segments, split_blocks, Re.split.
  pose proof (split_from_chars P separator_pattern
                (S (length (strip (normalize_text input_text)))) true _
                (strip_chars P _ H)) as Hb.
  induction Hb as [|b bs Hbl _ IH]; [constructor|].
  cbn [map filter]. destruct (truthy (clean_lines b)); [|exact IH].
  cbn [concat]. apply Forall_app. split; [|exact IH].
  unfold clean_lines. apply Forall_forall. intros l Hl.
  apply in_map_iff in Hl. destruct Hl as (raw & <- & Hraw).
  apply filter_In in Hraw. destruct Hraw as [Hraw _].
  apply strip_chars.
  pose proof (split_chars P nl b Hbl) as Hs. rewrite Forall_forall in Hs.
  now apply Hs.
Qed.

(** X18. Carriage returns do not survive: the normalised text holds none
    (CR-LF pairs and lone CRs have become newlines), and no block that the
    segmenter returns holds one. *)
Theorem no_carriage_return_left (input_text : str) :
  ~ In cr (normalize_text input_text)
  /\ Forall (fun block => ~ In cr block) (extract_customer_blocks input_text).
Proof.
  split; [apply normalize_text_no_cr|].
  rewrite extract_customer_blocks_regroup.
  assert (Hn : Forall (fun c => c <> cr) (normalize_text input_text)).
  { apply Forall_forall. intros c Hc ->. now apply (normalize_text_no_cr input_text). }
  apply segments_chars in Hn. rewrite <- regroup_concat in Hn.
  rewrite Forall_concat in Hn.
  apply Forall_map. eapply Forall_impl; [|exact Hn].
  intros g Hg Hin.
  assert (H : Forall (fun c => c <> cr) (join [nl] g))
    by (apply join_chars; [discriminate|exact Hg]).
  rewrite Forall_forall in H. now apply (H cr Hin).
Qed.

(** ** The name marker at the start of a line *)

Lemma startswith_ci_name_nam (s : str) :
  startswith_ci s (u "name") = true -> startswith_ci s (u "nam") = true.
Proof.
  replace (u "name") with [0x6E; 0x61; 0x6D; 0x65]%N by reflexivity.
  replace (u "nam") with [0x6E; 0x61; 0x6D]%N by reflexivity.
  destruct s as [|a [|b [|c [|d s]]]]; cbn [startswith_ci]; try discriminate;
    repeat match goal with
           | |- context [N.eqb ?x ?y] => destruct (N.eqb x y)
           end;
    cbn [andb]; auto; discriminate.
Qed.

(** X19. The segmenter's test for a name line: a line passes exactly when it
    begins, in any mix of capitals and small letters, with "নাম", with "nam"
    (and so with "name", "Name:", "NAMES ...") or with "আপনার নাম". It is
    the same test that decides whether the name substitution takes a marker
    off the line. *)
Theorem name_line_test (line : str) :
  matches name_start_pattern line
  = startswith_ci line (u "নাম") || startswith_ci line (u "nam")
    || startswith_ci line (u "আপনার নাম")
  /\ matches name_start_pattern line
     = truthy (filter (startswith_ci line) name_markers).
Proof.
  assert (H : matches name_start_pattern line
              = startswith_ci line (u "নাম") || startswith_ci line (u "name")
                || startswith_ci line (u "nam")
                || startswith_ci line (u "আপনার নাম")).
  { unfold matches, match_here, name_start_pattern.
    rewrite ReFacts.bt_cat, bt_bol_true. cbv beta.
    rewrite bt_group, !bt_alt, !bt_litI.
    destruct (startswith_ci line (u "নাম")); [reflexivity|].
    destruct (startswith_ci line (u "name")); [reflexivity|].
    destruct (startswith_ci line (u "nam")); [reflexivity|].
    destruct (startswith_ci line (u "আপনার নাম")); reflexivity. }
  pose proof (startswith_ci_name_nam line) as Hn.
  rewrite H. unfold name_markers. cbn [filter].
  destruct (startswith_ci line (u "নাম"));
    destruct (startswith_ci line (u "name"));
    destruct (startswith_ci line (u "nam"));
    destruct (startswith_ci line (u "আপনার নাম"));
    cbn [orb truthy]; split; try reflexivity;
    specialize (Hn eq_refl); discriminate.
Qed.


(** ** The record of a block, field by field *)

Lemma name_scan_candidates (lines : list str) :
  forall i nm,
    name_scan i lines nm
    = if truthy nm then nm else hd [] (filter truthy (name_candidates i lines)).
Proof.
  induction lines as [|raw later IH]; intros i nm.
  - cbn [name_scan name_candidates filter hd]. now destruct nm.
  - destruct (truthy nm) eqn:Hnm; [now apply name_scan_set|].
    cbn [name_scan name_candidates]. rewrite IH.
    unfold name_step. cbv zeta. rewrite Hnm. cbn [negb]. rewrite andb_true_r.
    rewrite filter_app.
    destruct (truthy (strip raw) && (Nat.eqb i 0 || any_in name_keywords (strip raw))).
    + cbn [filter].
      destruct (truthy (strip (sub name_prefix_pattern [] (strip raw))));
        reflexivity.
    + rewrite Hnm. reflexivity.
Qed.

Lemma phone_candidates_truthy (lines : list str) :
  Forall (fun p => truthy p = true) (phone_candidates lines).
Proof.
  unfold phone_candidates. induction lines as [|raw later IH]; [constructor|].
  cbn [flat_map]. apply Forall_app. split; [|exact IH].
  destruct (extract_phone_number (strip raw)) as [p|] eqn:E; [|constructor].
  apply extract_phone_number_shape in E. destruct E as [[Hlen _] _].
  repeat constructor. now destruct p.
Qed.

Lemma phone_fold_candidates (lines : list str) :
  forall ph,
    fold_left phone_step lines ph
    = if truthy ph then ph else hd [] (phone_candidates lines).
Proof.
  induction lines as [|raw later IH]; intro ph.
  - cbn [fold_left phone_candidates flat_map hd]. now destruct ph.
  - destruct (truthy ph) eqn:Hph; [now apply phone_step_set|].
    cbn [fold_left]. rewrite IH. unfold phone_step. rewrite Hph.
    pose proof (phone_candidates_truthy (raw :: later)) as Ht.
    unfold phone_candidates in *. cbn [flat_map] in *.
    destruct (extract_phone_number (strip raw)) as [p|]; [|reflexivity].
    inversion Ht as [|? ? Hp _]; subst. cbn [app hd]. now rewrite Hp.
Qed.

Lemma hd_truthy_nil_iff (l : list str) :
  Forall (fun x => truthy x = true) l -> (hd [] l = [] <-> l = []).
Proof.
  intro H. split; [|now intros ->].
  destruct H as [|x xs Hx _]; [reflexivity|].
  cbn [hd]. intros ->. discriminate.
Qed.

Lemma filter_truthy_all (l : list str) :
  Forall (fun x => truthy x = true) (filter truthy l).
Proof.
  apply Forall_forall. intros x Hx. now apply filter_In in Hx.
Qed.

Lemma blank_block_record (block_text : str) :
  strip block_text = [] -> process_customer_block block_text = empty_record.
Proof.
  intro H. unfold process_customer_block. now rewrite H.
Qed.

(** C4, as the code has it. The function is total, and every field of the
    record it returns is given by the lines of the block.
    - Delivery Type is "Home".
    - Name is the first non-empty of the names the block offers, Phone the
      first of the phone numbers it offers, Address its address lines joined
      by newlines, Note the last of its order notes. Each of the four is a
      string, and it is the empty string exactly when the block offers
      nothing for it.
    - Amount is the empty string when there is no order note; with a note,
      it is what [extract_amount] returns for it: a non-empty string of
      digits, or [None], and [None] whenever the note holds no digit.
    - A block that is empty once stripped gives the record with every field
      empty. *)
Theorem record_fields_and_amount (block_text : str) :
  let r := process_customer_block block_text in
  let lines := block_lines block_text in
  Delivery_Type r = u "Home"
  /\ ((Note r = [] /\ Amount r = Some [])
      \/ (Note r <> [] /\ Amount r = extract_amount (Note r)
          /\ (Amount r = None
              \/ exists a, Amount r = Some a /\ a <> []
                           /\ forallb isdecimal a = true)))
  /\ (Name r = hd [] (filter truthy (name_candidates 0 lines))
      /\ (Name r = [] <-> filter truthy (name_candidates 0 lines) = []))
  /\ (Phone r = hd [] (phone_candidates lines)
      /\ (Phone r = [] <-> phone_candidates lines = []))
  /\ (Address r = join [nl] (filter is_address_line (map strip lines))
      /\ (Address r = [] <-> filter is_address_line (map strip lines) = []))
  /\ (Note r = last (note_candidates lines) []
      /\ (Note r = [] <-> note_candidates lines = []))
  /\ (Note r <> [] ->
      forallb (fun c => negb (isdecimal c)) (Note r) = true ->
      Amount r = None)
  /\ (strip block_text = [] -> r = empty_record).
Proof.
  cbv zeta.
  destruct (note_and_amount_cases block_text) as [Hd Hcases].
  assert (Hname : Name (process_customer_block block_text)
                  = hd [] (filter truthy (name_candidates 0 (block_lines block_text)))).
  { rewrite process_customer_block_name. apply name_scan_candidates. }
  assert (Hphone : Phone (process_customer_block block_text)
                   = hd [] (phone_candidates (block_lines block_text))).
  { rewrite process_customer_block_phone. apply phone_fold_candidates. }
  assert (Haddr : Address (process_customer_block block_text)
                  = join [nl] (filter is_address_line
                                      (map strip (block_lines block_text)))).
  { unfold process_customer_block. cbn [Address]. now rewrite address_scan_lines. }
  destruct (note_and_amount_of_block block_text) as [Hnote _].
  split; [exact Hd|]. split; [exact Hcases|].
  split; [split; [exact Hname|]|].
  { rewrite Hname. apply hd_truthy_nil_iff, filter_truthy_all. }
  split; [split; [exact Hphone|]|].
  { rewrite Hphone. apply hd_truthy_nil_iff, phone_candidates_truthy. }
  split; [split; [exact Haddr|]|].
  { rewrite Haddr. apply join_nil_iff.
    apply Forall_forall. intros l Hl. apply filter_In in Hl.
    destruct Hl as [_ Hl]. intros ->. now rewrite is_address_line_nil in Hl. }
  split; [split; [exact Hnote|]|].
  { rewrite Hnote. split; [|now intros ->].
    pose proof (note_candidates_truthy (block_lines block_text)) as HF.
    destruct (note_candidates (block_lines block_text)) as [|n ns]; [reflexivity|].
    intro H0.
    assert (Ht : truthy (last (n :: ns) []) = true)
      by (apply (last_Forall _ _ [] HF); discriminate).
    rewrite H0 in Ht. discriminate. }
  split; [|apply blank_block_record].
  intros Hne Hnd.
  destruct Hcases as [[H0 _]|(_ & Ha & _)]; [contradiction|].
  rewrite Ha. now apply extract_amount_no_digit.
Qed.

(** A block of one blank line, and a block whose order note has no digit. *)
Lemma record_fields_and_amount_witness :
  let blank := [32; 9; 32]%N in
  let r := process_customer_block
             (join [nl] [u "নাম: Rahim"; u "অর্ডার"; u "লাল শার্ট"]) in
  strip blank = []
  /\ process_customer_block blank = empty_record
  /\ Note r <> []
  /\ forallb (fun c => negb (isdecimal c)) (Note r) = true
  /\ Amount r = None.
Proof.
  intros blank r.
  assert (H1 : strip blank = []) by reflexivity.
  assert (H2 : Note r <> []) by (vm_compute; discriminate).
  assert (H3 : forallb (fun c => negb (isdecimal c)) (Note r) = true)
    by (vm_compute; reflexivity).
  split; [exact H1|].
  split; [exact (proj2 (proj2 (proj2 (proj2 (proj2 (proj2 (proj2
            (record_fields_and_amount blank))))))) H1)|].
  split; [exact H2|]. split; [exact H3|].
  exact (proj1 (proj2 (proj2 (proj2 (proj2 (proj2 (proj2
           (record_fields_and_amount
              (join [nl] [u "নাম: Rahim"; u "অর্ডার"; u "লাল শার্ট"]))))))))
           H2 H3).
Defined.
